(** * Agent-OS: the orchestration core

    A shallow embedding of the client-side orchestrator
    (OrchestratorContext, SemanticTimeline, SelfCorrectionPanel,
    InfiniteCanvas, apiValidation) and the properties of its registries.

    Conventions of the embedding.
    - A JavaScript string is a [string]: a sequence of code units below 256,
      read as Latin-1 code points.  [toLowerCase], [trim] and [includes]
      are the ECMAScript functions restricted to that range.
    - A JavaScript array is a [list]; the source never assigns into an array
      or an object of the registries, it only builds new ones ([map],
      [filter], spread), so arrays of objects are lists of record values.
      Module [Alias] re-does the registry with an explicit object store and
      references, and the two models are shown to agree.
    - React state setters called with an updater function are applied in the
      order they are enqueued; [setResponses f] applies [f] to the state.
    - [nanoid()] and [Date.now()] read the environment: the [n]-th call of
      [nanoid] returns [nanoid_at n], and [Date.now()] returns the clock
      [now] of the machine, which only timers advance. *)

From Stdlib Require Import ZArith Ascii Lia.
From stdpp Require Import base decidable option list strings pretty gmap.

(** ** Strings *)

Module JsString.

Definition code (c : ascii) : nat := nat_of_ascii c.

(** Latin-1 upper-case letters: A-Z, and U+00C0-U+00DE except U+00D7. *)
Definition isUpper (c : ascii) : bool :=
  let n := code c in
  ((65 <=? n) && (n <=? 90))%nat
  || ((192 <=? n) && (n <=? 222) && negb (n =? 215))%nat.

Definition lowerChar (c : ascii) : ascii :=
  if isUpper c then ascii_of_nat (code c + 32) else c.

Fixpoint map (f : ascii -> ascii) (s : string) : string :=
  match s with
  | EmptyString => EmptyString
  | String c s' => String (f c) (map f s')
  end.

Definition toLowerCase (s : string) : string := map lowerChar s.

(** [startsWith s q]: [q] is a prefix of [s]. *)
Fixpoint startsWith (s q : string) {struct q} : bool :=
  match q, s with
  | EmptyString, _ => true
  | String _ _, EmptyString => false
  | String b q', String a s' => bool_decide (a = b) && startsWith s' q'
  end.

(** [s.includes(q)]: [q] occurs in [s] at some position. *)
Fixpoint includes (s q : string) : bool :=
  startsWith s q
  || match s with
     | EmptyString => false
     | String _ s' => includes s' q
     end.

(** White space of [trim] below U+0100: TAB, LF, VT, FF, CR, SP, NBSP. *)
Definition isWhiteSpace (c : ascii) : bool :=
  let n := code c in
  ((9 <=? n) && (n <=? 13))%nat || (n =? 32)%nat || (n =? 160)%nat.

Fixpoint trimStart (s : string) : string :=
  match s with
  | EmptyString => EmptyString
  | String c s' => if isWhiteSpace c then trimStart s' else s
  end.

(** [trimEnd] drops a character when it is white space and everything
    after it has been dropped. *)
Fixpoint trimEnd (s : string) : string :=
  match s with
  | EmptyString => EmptyString
  | String c s' =>
      match trimEnd s' with
      | EmptyString => if isWhiteSpace c then EmptyString else String c EmptyString
      | t => String c t
      end
  end.

Definition trim (s : string) : string := trimEnd (trimStart s).

Fixpoint allWhiteSpace (s : string) : bool :=
  match s with
  | EmptyString => true
  | String c s' => isWhiteSpace c && allWhiteSpace s'
  end.

End JsString.

(** ** Data model (OrchestratorContext, apiValidation) *)

Inductive ModelProvider := openai | gemini | deepseek | qwen.

#[global] Instance ModelProvider_eq_dec : EqDecision ModelProvider.
Proof. solve_decision. Defined.

(** A [ModelProvider] is a string literal type: the value is its name. *)
Definition ModelProvider_str (p : ModelProvider) : string :=
  match p with
  | openai => "openai"
  | gemini => "gemini"
  | deepseek => "deepseek"
  | qwen => "qwen"
  end.

Module CanvasResponse.

Inductive Status := loading | success | error.

#[global] Instance Status_eq_dec : EqDecision Status.
Proof. solve_decision. Defined.

Record t := mk {
  id : string;
  provider : ModelProvider;
  prompt : string;
  response : string;
  timestamp : Z;
  status : Status;
}.

#[global] Instance eq_dec : EqDecision t.
Proof. solve_decision. Defined.

(** [Partial<CanvasResponse>]: the fields an update carries. *)
Record Partial := mkPartial {
  id_opt : option string;
  provider_opt : option ModelProvider;
  prompt_opt : option string;
  response_opt : option string;
  timestamp_opt : option Z;
  status_opt : option Status;
}.

(** [{ ...r, ...updates }] *)
Definition spread (r : t) (updates : Partial) : t :=
  {| id := default (id r) (id_opt updates);
     provider := default (provider r) (provider_opt updates);
     prompt := default (prompt r) (prompt_opt updates);
     response := default (response r) (response_opt updates);
     timestamp := default (timestamp r) (timestamp_opt updates);
     status := default (status r) (status_opt updates) |}.

(** [{ ...r, response: text, status: s }] *)
Definition settle (r : t) (text : string) (s : Status) : t :=
  {| id := id r; provider := provider r; prompt := prompt r;
     response := text; timestamp := timestamp r; status := s |}.

(** [Omit<CanvasResponse, 'id' | 'timestamp'>] as a function receives it:
    the two omitted properties are absent ([None]) unless the caller put
    them on the object anyway. *)
Module Input.
Record t := mk {
  id : option string;
  timestamp : option Z;
  provider : ModelProvider;
  prompt : string;
  response : string;
  status : Status;
}.
End Input.

(** The object literal [{ provider, prompt, response, status }]. *)
Definition literal (provider : ModelProvider) (prompt response : string)
    (status : Status) : Input.t :=
  Input.mk None None provider prompt response status.

End CanvasResponse.

Module TimelineEntry.

Record t := mk {
  id : string;
  prompt : string;
  providers : list ModelProvider;
  timestamp : Z;
  tags : list string;
  responses : list CanvasResponse.t;
}.

#[global] Instance eq_dec : EqDecision t.
Proof. solve_decision. Defined.

(** [Omit<TimelineEntry, 'id' | 'timestamp'>] as received. *)
Module Input.
Record t := mk {
  id : option string;
  timestamp : option Z;
  prompt : string;
  providers : list ModelProvider;
  tags : list string;
  responses : list CanvasResponse.t;
}.
End Input.

(** The object literal [{ prompt, providers, tags, responses }]. *)
Definition literal (prompt : string) (providers : list ModelProvider)
    (tags : list string) (responses : list CanvasResponse.t) : Input.t :=
  Input.mk None None prompt providers tags responses.

End TimelineEntry.

Module CorrectionLink.

Inductive CorrectionType := code_review | fact_check | optimization.
Inductive Status := pending | completed | error.

#[global] Instance CorrectionType_eq_dec : EqDecision CorrectionType.
Proof. solve_decision. Defined.
#[global] Instance Status_eq_dec : EqDecision Status.
Proof. solve_decision. Defined.

(** The provider labels are strings: the panel stores [''] when the
    selected node is not among the available ones. *)
Record t := mk {
  id : string;
  sourceNodeId : string;
  sourceProvider : string;
  targetNodeId : string;
  targetProvider : string;
  correctionType : CorrectionType;
  status : Status;
  feedback : option string;
  timestamp : Z;
}.

#[global] Instance eq_dec : EqDecision t.
Proof. solve_decision. Defined.

Record Partial := mkPartial {
  id_opt : option string;
  sourceNodeId_opt : option string;
  sourceProvider_opt : option string;
  targetNodeId_opt : option string;
  targetProvider_opt : option string;
  correctionType_opt : option CorrectionType;
  status_opt : option Status;
  feedback_opt : option string;
  timestamp_opt : option Z;
}.

(** [{ ...l, ...updates }] *)
Definition spread (l : t) (updates : Partial) : t :=
  {| id := default (id l) (id_opt updates);
     sourceNodeId := default (sourceNodeId l) (sourceNodeId_opt updates);
     sourceProvider := default (sourceProvider l) (sourceProvider_opt updates);
     targetNodeId := default (targetNodeId l) (targetNodeId_opt updates);
     targetProvider := default (targetProvider l) (targetProvider_opt updates);
     correctionType := default (correctionType l) (correctionType_opt updates);
     status := default (status l) (status_opt updates);
     feedback := match feedback_opt updates with
                 | Some f => Some f
                 | None => feedback l
                 end;
     timestamp := default (timestamp l) (timestamp_opt updates) |}.

(** [Omit<CorrectionLink, 'id' | 'timestamp'>] as received. *)
Module Input.
Record t := mk {
  id : option string;
  timestamp : option Z;
  sourceNodeId : string;
  sourceProvider : string;
  targetNodeId : string;
  targetProvider : string;
  correctionType : CorrectionType;
  status : Status;
  feedback : option string;
}.
End Input.

End CorrectionLink.

(** ** The machine: the three registries and the environment *)

Record Machine := mkMachine {
  responses : list CanvasResponse.t;
  timeline : list TimelineEntry.t;
  correctionLinks : list CorrectionLink.t;
  now : Z;            (* what Date.now() returns *)
  drawn : nat;        (* how many ids nanoid() has produced *)
}.

(** Computations that read and write the machine. *)
Definition M (A : Type) : Type := Machine -> A * Machine.

#[global] Instance M_ret : MRet M := fun A (a : A) (m : Machine) => (a, m).
#[global] Instance M_bind : MBind M :=
  fun A B (k : A -> M B) (c : M A) (m : Machine) => let (a, m') := c m in k a m'.

Definition exec {A} (c : M A) (m : Machine) : Machine := snd (c m).
Definition eval {A} (c : M A) (m : Machine) : A := fst (c m).

Fixpoint forEach {A} (l : list A) (f : A -> M unit) : M unit :=
  match l with
  | [] => mret tt
  | x :: l' => f x;; forEach l' f
  end.

Definition setResponses (f : list CanvasResponse.t -> list CanvasResponse.t) : M unit :=
  fun m => (tt, mkMachine (f (responses m)) (timeline m) (correctionLinks m) (now m) (drawn m)).

Definition setTimeline (f : list TimelineEntry.t -> list TimelineEntry.t) : M unit :=
  fun m => (tt, mkMachine (responses m) (f (timeline m)) (correctionLinks m) (now m) (drawn m)).

Definition setCorrectionLinks (f : list CorrectionLink.t -> list CorrectionLink.t) : M unit :=
  fun m => (tt, mkMachine (responses m) (timeline m) (f (correctionLinks m)) (now m) (drawn m)).

Definition Date_now : M Z := fun m => (now m, m).

(** A timer of [d] milliseconds has elapsed. *)
Definition elapse (d : Z) : M unit :=
  fun m => (tt, mkMachine (responses m) (timeline m) (correctionLinks m) (now m + d) (drawn m)).

Section Orchestrator.

(** The [n]-th identifier produced by [nanoid()]. *)
Variable nanoid_at : nat -> string.

Definition nanoid : M string :=
  fun m => (nanoid_at (drawn m),
            mkMachine (responses m) (timeline m) (correctionLinks m) (now m) (S (drawn m))).

(** *** Response registry *)

(** [{ ...response, id: nanoid(), timestamp: Date.now() }]: the spread
    comes first, so an [id] or [timestamp] on the argument is overwritten. *)
Definition addResponse (response : CanvasResponse.Input.t) : M unit :=
  i ← nanoid;
  ts ← Date_now;
  let newResponse :=
    {| CanvasResponse.id := i;
       CanvasResponse.provider := CanvasResponse.Input.provider response;
       CanvasResponse.prompt := CanvasResponse.Input.prompt response;
       CanvasResponse.response := CanvasResponse.Input.response response;
       CanvasResponse.timestamp := ts;
       CanvasResponse.status := CanvasResponse.Input.status response |} in
  setResponses (fun prev => prev ++ [newResponse]).

Definition updateResponse (id : string) (updates : CanvasResponse.Partial) : M unit :=
  setResponses (fun prev =>
    List.map (fun r => if decide (CanvasResponse.id r = id)
                       then CanvasResponse.spread r updates else r) prev).

Definition removeResponse (id : string) : M unit :=
  setResponses (fun prev => filter (fun r => CanvasResponse.id r <> id) prev).

Definition clearResponses : M unit :=
  setResponses (fun _ => []).

(** *** Timeline *)

Definition addTimelineEntry (entry : TimelineEntry.Input.t) : M unit :=
  i ← nanoid;
  ts ← Date_now;
  let newEntry :=
    {| TimelineEntry.id := i;
       TimelineEntry.prompt := TimelineEntry.Input.prompt entry;
       TimelineEntry.providers := TimelineEntry.Input.providers entry;
       TimelineEntry.timestamp := ts;
       TimelineEntry.tags := TimelineEntry.Input.tags entry;
       TimelineEntry.responses := TimelineEntry.Input.responses entry |} in
  setTimeline (fun prev => newEntry :: prev).

Definition removeTimelineEntry (id : string) : M unit :=
  setTimeline (fun prev => filter (fun e => TimelineEntry.id e <> id) prev).

(** *** Correction links *)

Definition addCorrectionLink (link : CorrectionLink.Input.t) : M unit :=
  i ← nanoid;
  ts ← Date_now;
  let newLink :=
    {| CorrectionLink.id := i;
       CorrectionLink.sourceNodeId := CorrectionLink.Input.sourceNodeId link;
       CorrectionLink.sourceProvider := CorrectionLink.Input.sourceProvider link;
       CorrectionLink.targetNodeId := CorrectionLink.Input.targetNodeId link;
       CorrectionLink.targetProvider := CorrectionLink.Input.targetProvider link;
       CorrectionLink.correctionType := CorrectionLink.Input.correctionType link;
       CorrectionLink.status := CorrectionLink.Input.status link;
       CorrectionLink.feedback := CorrectionLink.Input.feedback link;
       CorrectionLink.timestamp := ts |} in
  setCorrectionLinks (fun prev => prev ++ [newLink]).

Definition removeCorrectionLink (id : string) : M unit :=
  setCorrectionLinks (fun prev => filter (fun l => CorrectionLink.id l <> id) prev).

Definition updateCorrectionLink (id : string) (updates : CorrectionLink.Partial) : M unit :=
  setCorrectionLinks (fun prev =>
    List.map (fun l => if decide (CorrectionLink.id l = id)
                       then CorrectionLink.spread l updates else l) prev).

(** *** Multi-model orchestration *)

Definition mockResponses (provider : ModelProvider) : string :=
  match provider with
  | openai => "This is a response from OpenAI. I can help you with various tasks including coding, analysis, and creative writing."
  | gemini => "Response from Google Gemini. I can assist with information retrieval, analysis, and problem-solving tasks."
  | deepseek => "DeepSeek response: I specialize in deep reasoning and complex problem analysis."
  | qwen => "Qwen response: I can help with multilingual tasks and comprehensive analysis."
  end.

(** The updater of the [try] block (lines 167-177). *)
Definition onSuccess (provider : ModelProvider)
    (prev : list CanvasResponse.t) : list CanvasResponse.t :=
  List.map (fun r =>
    if decide (CanvasResponse.provider r = provider
               /\ CanvasResponse.status r = CanvasResponse.loading)
    then CanvasResponse.settle r (mockResponses provider) CanvasResponse.success
    else r) prev.

(** The updater of the [catch] block (lines 180-190). *)
Definition onError (provider : ModelProvider)
    (prev : list CanvasResponse.t) : list CanvasResponse.t :=
  List.map (fun r =>
    if decide (CanvasResponse.provider r = provider
               /\ CanvasResponse.status r = CanvasResponse.loading)
    then CanvasResponse.settle r
           ("Error: Failed to get response from " +:+ ModelProvider_str provider)
           CanvasResponse.error
    else r) prev.

(** What the environment decides about one provider call: how long the
    timer runs ([1000 + Math.random() * 2000] milliseconds) and whether
    the [try] block completes or throws.  In this revision the awaited
    promise always fulfils; [throws] is the exception a real call would
    raise there, which the [catch] clause handles. *)
Record ProviderCall := mkCall { delay : Z; throws : bool }.

(** The variables the async function closes over.  [cl_responses] is the
    [responses] of the render that created the callback (it is in the
    dependency list of [useCallback]); it does not follow the state. *)
Record Closure := mkClosure {
  cl_responses : list CanvasResponse.t;
  cl_prompt : string;
  cl_providers : list ModelProvider;
}.

(** Where the async function is suspended: at the [await] of the loop
    body for [provider], with [rest] still to iterate; or it has returned. *)
Inductive Task :=
| Awaiting (provider : ModelProvider) (rest : list ModelProvider)
| Returned.

(** Lines 194-202. *)
Definition recordBatch (cl : Closure) : M unit :=
  addTimelineEntry
    (TimelineEntry.literal (cl_prompt cl) (cl_providers cl) []
       (filter (fun r => CanvasResponse.provider r ∈ cl_providers cl
                         /\ CanvasResponse.prompt r = cl_prompt cl)
               (cl_responses cl))).

(** Enter the next iteration of the [for ... of], or leave the loop. *)
Definition iterate (cl : Closure) (rest : list ModelProvider) : M Task :=
  match rest with
  | provider :: rest' => mret (Awaiting provider rest')
  | [] => recordBatch cl;; mret Returned
  end.

(** The synchronous part of a call: everything up to the first [await]. *)
Definition sendPromptToMultipleModels_start (cl : Closure) : M Task :=
  forEach (cl_providers cl) (fun provider =>
    addResponse (CanvasResponse.literal provider (cl_prompt cl) "" CanvasResponse.loading));;
  iterate cl (cl_providers cl).

(** The continuation of an [await]: the timer has run, the [try] block
    finishes (or the [catch] block runs), and the loop goes on to its
    next suspension. *)
Definition sendPromptToMultipleModels_resume (cl : Closure) (call : ProviderCall)
    (t : Task) : M Task :=
  match t with
  | Returned => mret Returned
  | Awaiting provider rest =>
      elapse (delay call);;
      setResponses (if throws call then onError provider else onSuccess provider);;
      iterate cl rest
  end.

(** The continuations of a call run one after the other, nothing else
    touching the machine in between. *)
Fixpoint resumeAll (cl : Closure) (calls : list ProviderCall) (t : Task) : M Task :=
  match calls with
  | [] => mret t
  | call :: calls' =>
      t' ← sendPromptToMultipleModels_resume cl call t;
      resumeAll cl calls' t'
  end.

(** A whole call, invoked from the render whose [responses] is the
    current state, as an event handler does. *)
Definition sendPromptToMultipleModels (prompt : string)
    (providers : list ModelProvider) (calls : list ProviderCall) : M Task :=
  rs ← (fun m => (responses m, m));
  let cl := mkClosure rs prompt providers in
  t ← sendPromptToMultipleModels_start cl;
  resumeAll cl calls t.

End Orchestrator.

(** ** Home page handlers and the panels *)

Inductive Toast :=
| toast_error (message : string)
| toast_success (message : string).

(** JavaScript truthiness of a [string | null] selection. *)
Definition truthy (s : option string) : bool :=
  match s with
  | None => false
  | Some v => negb (bool_decide (v = ""))
  end.

Module SemanticTimeline.

Import JsString.

(** [matchesSearch] of the [filteredEntries] memo. *)
Definition matchesSearch (searchQuery : string) (entry : TimelineEntry.t) : bool :=
  bool_decide (searchQuery = "")
  || includes (toLowerCase (TimelineEntry.prompt entry)) (toLowerCase searchQuery)
  || existsb (fun tag => includes (toLowerCase tag) (toLowerCase searchQuery))
       (TimelineEntry.tags entry)
  || existsb (fun provider =>
                includes (toLowerCase (ModelProvider_str provider)) (toLowerCase searchQuery))
       (TimelineEntry.providers entry).

Definition matchesTag (selectedTag : option string) (entry : TimelineEntry.t) : bool :=
  match selectedTag with
  | None => true
  | Some tag => bool_decide (tag ∈ TimelineEntry.tags entry)
  end.

Definition filteredEntries (entries : list TimelineEntry.t) (searchQuery : string)
    (selectedTag : option string) : list TimelineEntry.t :=
  List.filter (fun entry => matchesSearch searchQuery entry && matchesTag selectedTag entry)
    entries.

(** *** The search as the specification words it *)

(** [q] is a case-insensitive substring of [s]: some contiguous part of
    [s] equals [q] up to letter case. *)
Definition ci_substring (q s : string) : Prop :=
  exists pre mid post,
    s = pre +:+ mid +:+ post /\ toLowerCase mid = toLowerCase q.

Definition search_matches (query : string) (tag : option string)
    (e : TimelineEntry.t) : Prop :=
  (query = ""
   \/ ci_substring query (TimelineEntry.prompt e)
   \/ (exists t, t ∈ TimelineEntry.tags e /\ ci_substring query t)
   \/ (exists p, p ∈ TimelineEntry.providers e
                 /\ ci_substring query (ModelProvider_str p)))
  /\ (tag = None \/ exists t, tag = Some t /\ t ∈ TimelineEntry.tags e).

(** [selection P l l']: [l'] is [l] with exactly the elements that do not
    satisfy [P] struck out; order and repetitions are those of [l]. *)
Inductive selection {A} (P : A -> Prop) : list A -> list A -> Prop :=
| selection_nil : selection P [] []
| selection_keep x l l' : P x -> selection P l l' -> selection P (x :: l) (x :: l')
| selection_drop x l l' : ~ P x -> selection P l l' -> selection P (x :: l) l'.

(** *** The tag chips and the time labels *)

(** [tags.add(tag)] on a [Set]: a value already in the set is not added
    again, a new one goes last. *)
Definition setAdd (tags : list string) (tag : string) : list string :=
  if decide (tag ∈ tags) then tags else tags ++ [tag].

(** [allTags]: the tags of all entries, each once, in the order in which
    [Array.from] lists the set (first insertion). *)
Definition allTags (entries : list TimelineEntry.t) : list string :=
  fold_left (fun tags entry => fold_left setAdd (TimelineEntry.tags entry) tags) entries [].

(** [formatTime]; [Date_now] is the clock when the label is drawn and
    [toLocaleDateString] the locale's rendering of a date. *)
Definition formatTime (toLocaleDateString : Z -> string) (Date_now : Z) (timestamp : Z)
    : string :=
  let diff := (Date_now - timestamp)%Z in
  if decide (diff < 60000)%Z then "Just now"
  else if decide (diff < 3600000)%Z then pretty (diff / 60000)%Z +:+ "m ago"
  else if decide (diff < 86400000)%Z then pretty (diff / 3600000)%Z +:+ "h ago"
  else toLocaleDateString timestamp.

End SemanticTimeline.

Module SelfCorrectionPanel.

Record AvailableNode := mkNode {
  id : string;
  provider : string;
  response : string;
}.

Record State := mkState {
  selectedSource : option string;
  selectedTarget : option string;
  correctionType : CorrectionLink.CorrectionType;
  isCreating : bool;
}.

(** [availableNodes.find((n) => n.id === selected)?.provider || ''] *)
Definition providerOf (availableNodes : list AvailableNode) (selected : string) : string :=
  match List.find (fun n => bool_decide (id n = selected)) availableNodes with
  | Some n => provider n
  | None => ""
  end.

(** The selected id; the guards of [handleCreateLink] make sure it is
    read only when a selection is there. *)
Definition selected (s : option string) : string := default "" s.

Definition handleCreateLink (availableNodes : list AvailableNode)
    (onCreateLink : CorrectionLink.Input.t -> M unit) (st : State) : M (Toast * State) :=
  if negb (truthy (selectedSource st)) || negb (truthy (selectedTarget st)) then
    mret (toast_error "Select both source and target nodes", st)
  else if decide (selectedSource st = selectedTarget st) then
    mret (toast_error "Source and target must be different nodes", st)
  else
    onCreateLink
      {| CorrectionLink.Input.id := None;
         CorrectionLink.Input.timestamp := None;
         CorrectionLink.Input.sourceNodeId := selected (selectedSource st);
         CorrectionLink.Input.sourceProvider :=
           providerOf availableNodes (selected (selectedSource st));
         CorrectionLink.Input.targetNodeId := selected (selectedTarget st);
         CorrectionLink.Input.targetProvider :=
           providerOf availableNodes (selected (selectedTarget st));
         CorrectionLink.Input.correctionType := correctionType st;
         CorrectionLink.Input.status := CorrectionLink.pending;
         CorrectionLink.Input.feedback := None |};;
    mret (toast_success "Correction link created",
          mkState None None CorrectionLink.code_review false).

End SelfCorrectionPanel.

Module Home.

(** [handleProviderToggle]: the updater handed to [setSelectedProviders]. *)
Definition handleProviderToggle (provider : ModelProvider)
    (prev : list ModelProvider) : list ModelProvider :=
  if decide (provider ∈ prev) then filter (fun p => p <> provider) prev
  else prev ++ [provider].

Section Handlers.

Variable nanoid_at : nat -> string.

(** [addCorrectionLink({ ...link, status: 'pending' })] *)
Definition handleCreateCorrectionLink (link : CorrectionLink.Input.t) : M unit :=
  addCorrectionLink nanoid_at
    {| CorrectionLink.Input.id := CorrectionLink.Input.id link;
       CorrectionLink.Input.timestamp := CorrectionLink.Input.timestamp link;
       CorrectionLink.Input.sourceNodeId := CorrectionLink.Input.sourceNodeId link;
       CorrectionLink.Input.sourceProvider := CorrectionLink.Input.sourceProvider link;
       CorrectionLink.Input.targetNodeId := CorrectionLink.Input.targetNodeId link;
       CorrectionLink.Input.targetProvider := CorrectionLink.Input.targetProvider link;
       CorrectionLink.Input.correctionType := CorrectionLink.Input.correctionType link;
       CorrectionLink.Input.status := CorrectionLink.pending;
       CorrectionLink.Input.feedback := CorrectionLink.Input.feedback link |}.

(** The [availableNodes] prop handed to the panel. *)
Definition availableNodes (rs : list CanvasResponse.t) : list SelfCorrectionPanel.AvailableNode :=
  List.map (fun r => SelfCorrectionPanel.mkNode (CanvasResponse.id r)
                       (ModelProvider_str (CanvasResponse.provider r))
                       (CanvasResponse.response r)) rs.

(** The panel's [handleCreateLink] as the page wires it. *)
Definition createLink (st : SelfCorrectionPanel.State)
    : M (Toast * SelfCorrectionPanel.State) :=
  fun m =>
    SelfCorrectionPanel.handleCreateLink (availableNodes (responses m))
      handleCreateCorrectionLink st m.

(** [handleSendPrompt] up to the first suspension of the call it makes:
    the two guards, then the synchronous part of the fan-out. *)
Definition handleSendPrompt (prompt : string) (selectedProviders : list ModelProvider)
    : M (Toast + Task) :=
  if decide (JsString.trim prompt = "") then
    mret (inl (toast_error "Prompt cannot be empty"))
  else if decide (length selectedProviders = 0) then
    mret (inl (toast_error "Select at least one provider"))
  else
    fun m =>
      let cl := mkClosure (responses m) prompt selectedProviders in
      let (t, m') := sendPromptToMultipleModels_start nanoid_at cl m in
      (inr t, m').

End Handlers.

End Home.

(** ** The canvas component's own node list (InfiniteCanvas) *)

Module InfiniteCanvas.

Record Edge := mkEdge { source : string; target : string }.

Record State := mkState {
  nodes : list string;              (* the ids of the React Flow nodes *)
  edges : list Edge;
  responses : list CanvasResponse.t;
}.

Definition deleteNode (nodeId : string) (st : State) : State :=
  {| nodes := filter (fun n => n <> nodeId) (nodes st);
     edges := filter (fun e => source e <> nodeId /\ target e <> nodeId) (edges st);
     responses := filter (fun r => CanvasResponse.id r <> nodeId) (responses st) |}.

(** [addResponseNode]; the node is put at a random position, which the
    node list of this model does not record. *)
Definition addResponseNode (response : CanvasResponse.t) (st : State) : State :=
  {| nodes := nodes st ++ [CanvasResponse.id response];
     edges := edges st;
     responses := responses st ++ [response] |}.

Definition clearCanvas (st : State) : State :=
  {| nodes := []; edges := []; responses := [] |}.

(** Every edge joins two nodes that are on the canvas. *)
Definition wellFormed (st : State) : Prop :=
  Forall (fun e => source e ∈ nodes st /\ target e ∈ nodes st) (edges st).

End InfiniteCanvas.

(** ** Key validation (apiValidation) *)

Module ApiValidation.

Record ValidationResult := mkResult {
  success : bool;
  message : string;
  provider : ModelProvider;
  timestamp : Z;
}.

(** What a request is to the validator: where it goes and where the key
    travels.  The method and the body are constants of each provider. *)
Record Request := mkRequest {
  url : string;
  authorization : option string;
}.

(** A thrown value: an [Error] with its message, or anything else. *)
Inductive Thrown :=
| thrown_Error (message : string)
| thrown_other.

(** Reading the body of a response that is not [ok]: [response.json()]
    or the property access throws, or it yields the message found at the
    provider's path ([None] when it is undefined). *)
Inductive ErrorBody :=
| body_throws (e : Thrown)
| body_message (m : option string).

Inductive FetchResult :=
| fetch_rejects (e : Thrown)
| fetch_response (ok : bool) (body : ErrorBody).

Definition thrownMessage (e : Thrown) : string :=
  match e with
  | thrown_Error m => m
  | thrown_other => "Unknown error"
  end.

Section Validators.

(** The network, and the clock read when the result is built. *)
Variable fetch : Request -> FetchResult.
Variable Date_now : Z.

(** The outcome of a validator together with the requests it issued. *)
Definition Outcome : Type := ValidationResult * list Request.

(** The common body of the four validators after the request is built. *)
Definition exchange (provider : ModelProvider) (request : Request)
    (validated : string) : Outcome :=
  (match fetch request with
   | fetch_rejects e =>
       mkResult false ("Connection error: " +:+ thrownMessage e) provider Date_now
   | fetch_response true _ =>
       mkResult true validated provider Date_now
   | fetch_response false (body_throws e) =>
       mkResult false ("Connection error: " +:+ thrownMessage e) provider Date_now
   | fetch_response false (body_message m) =>
       mkResult false
         (match m with
          | Some text => if decide (text = "") then "Invalid API key" else text
          | None => "Invalid API key"
          end) provider Date_now
   end, [request]).

Definition validateOpenAIKey (apiKey : string) : Outcome :=
  exchange openai
    (mkRequest "https://api.openai.com/v1/chat/completions" (Some ("Bearer " +:+ apiKey)))
    "OpenAI API key validated successfully".

Definition validateGeminiKey (apiKey : string) : Outcome :=
  exchange gemini
    (mkRequest
       ("https://generativelanguage.googleapis.com/v1beta/models/gemini-pro:generateContent?key="
        +:+ apiKey) None)
    "Gemini API key validated successfully".

Definition validateDeepSeekKey (apiKey : string) : Outcome :=
  exchange deepseek
    (mkRequest "https://api.deepseek.com/chat/completions" (Some ("Bearer " +:+ apiKey)))
    "DeepSeek API key validated successfully".

Definition validateQwenKey (apiKey : string) : Outcome :=
  exchange qwen
    (mkRequest
       "https://dashscope.aliyuncs.com/api/v1/services/aigc/text-generation/generation"
       (Some ("Bearer " +:+ apiKey)))
    "Qwen API key validated successfully".

Definition validateAPIKey (provider : ModelProvider) (apiKey : string) : Outcome :=
  if bool_decide (apiKey = "") || bool_decide (String.length (JsString.trim apiKey) = 0) then
    (mkResult false "API key cannot be empty" provider Date_now, [])
  else
    match provider with
    | openai => validateOpenAIKey apiKey
    | gemini => validateGeminiKey apiKey
    | deepseek => validateDeepSeekKey apiKey
    | qwen => validateQwenKey apiKey
    end.

End Validators.

End ApiValidation.

(** ** Key storage (SecureStorage) *)

Module SecureStorage.

(** [localStorage] as the page finds it: its items; whether the browser
    refuses the page any access ([denied]: every call throws); whether the
    quota is used up ([full]: [setItem] throws). *)
Record LocalStorage := mkStorage {
  items : gmap string string;
  denied : bool;
  full : bool;
}.

(** [`agentic_os_${provider}_key`] *)
Definition keyName (provider : ModelProvider) : string :=
  "agentic_os_" +:+ ModelProvider_str provider +:+ "_key".

(** An exception of [setItem] is caught and logged. *)
Definition saveKey (provider : ModelProvider) (apiKey : string)
    (ls : LocalStorage) : LocalStorage :=
  if denied ls || full ls then ls
  else mkStorage (<[keyName provider := apiKey]> (items ls)) (denied ls) (full ls).

(** [null] is [None]; an exception of [getItem] is caught and gives [null]. *)
Definition getKey (provider : ModelProvider) (ls : LocalStorage) : option string :=
  if denied ls then None else items ls !! keyName provider.

Definition hasKey (provider : ModelProvider) (ls : LocalStorage) : bool :=
  match getKey provider ls with
  | Some _ => true
  | None => false
  end.

Definition deleteKey (provider : ModelProvider) (ls : LocalStorage) : LocalStorage :=
  if denied ls then ls
  else mkStorage (delete (keyName provider) (items ls)) (denied ls) (full ls).

Definition providers : list ModelProvider := [openai; gemini; deepseek; qwen].

Definition getSavedProviders (ls : LocalStorage) : list ModelProvider :=
  List.filter (fun p => hasKey p ls) providers.

End SecureStorage.

(** ** The connection vault (ConnectionVault) *)

Module ConnectionVault.

Record State := mkState {
  selectedProvider : ModelProvider;
  apiKey : string;
  showKey : bool;
  isValidating : bool;
  validationResult : option ApiValidation.ValidationResult;
  savedProviders : list ModelProvider;
}.

(** A toast with its description. *)
Inductive Notice :=
| notice_success (title : string) (description : option string)
| notice_error (title : string) (description : option string).

(** [provider.toUpperCase()] for the four provider names. *)
Definition upperName (provider : ModelProvider) : string :=
  match provider with
  | openai => "OPENAI"
  | gemini => "GEMINI"
  | deepseek => "DEEPSEEK"
  | qwen => "QWEN"
  end.

(** What one run of a handler leaves: the toast shown, the state of the
    dialog, the storage, the requests sent, and whether the dialog is set
    to close. *)
Record Outcome := mkOutcome {
  notice : Notice;
  state : State;
  storage : SecureStorage.LocalStorage;
  requests : list ApiValidation.Request;
  closes : bool;
}.

Section Handlers.

Variable fetch : ApiValidation.Request -> ApiValidation.FetchResult.
Variable Date_now : Z.

(** [handleValidateAndSave].  The validators and the storage functions
    catch their own exceptions, so the [catch] clause of the handler is
    not reached; the [finally] clause clears [isValidating]. *)
Definition handleValidateAndSave (st : State) (ls : SecureStorage.LocalStorage) : Outcome :=
  let (result, sent) :=
    ApiValidation.validateAPIKey fetch Date_now (selectedProvider st) (apiKey st) in
  if ApiValidation.success result then
    let ls' := SecureStorage.saveKey (selectedProvider st) (apiKey st) ls in
    mkOutcome
      (notice_success (upperName (selectedProvider st) +:+ " connected")
         (Some "API key saved securely"))
      (mkState (selectedProvider st) "" (showKey st) false (Some result)
         (SecureStorage.getSavedProviders ls'))
      ls' sent true
  else
    mkOutcome
      (notice_error "Validation failed" (Some (ApiValidation.message result)))
      (mkState (selectedProvider st) (apiKey st) (showKey st) false (Some result)
         (savedProviders st))
      ls sent false.

End Handlers.


(** [isSaved] of the render. *)
Definition isSaved (st : State) (ls : SecureStorage.LocalStorage) : bool :=
  SecureStorage.hasKey (selectedProvider st) ls.

End ConnectionVault.


(** ** Mutations of the response registry *)

(** Everything the program ever does to the [responses] array. *)
Inductive RegistryMutation :=
| Add (newResponse : CanvasResponse.t)
| Update (id : string) (updates : CanvasResponse.Partial)
| Remove (id : string)
| Clear
| Succeed (provider : ModelProvider)
| Fail (provider : ModelProvider).

Definition mutate (mu : RegistryMutation) (prev : list CanvasResponse.t)
    : list CanvasResponse.t :=
match mu with
| Add newResponse => prev ++ [newResponse]
| Update id updates =>
    List.map (fun r => if decide (CanvasResponse.id r = id)
                       then CanvasResponse.spread r updates else r) prev
| Remove id => filter (fun r => CanvasResponse.id r <> id) prev
| Clear => []
| Succeed provider => onSuccess provider prev
| Fail provider => onError provider prev
end.

(** ** The registry with object identity

    The same operations on an object store: an array is a list of
    references, [map] allocates an object where its callback builds one and
    passes the reference on where the callback returns its argument,
    [filter] copies references. *)

Module Alias.

Abbreviation Store := (gmap positive CanvasResponse.t).

Definition alloc (σ : Store) (v : CanvasResponse.t) : positive * Store :=
let l := fresh (dom σ) in (l, <[l := v]> σ).


(** [refs.map((r) => P(r) ? f(r) : r)], [f] building a new object. *)
Fixpoint mapWhere (P : CanvasResponse.t -> Prop) `{!forall r, Decision (P r)}
    (f : CanvasResponse.t -> CanvasResponse.t) (σ : Store) (refs : list positive)
    : Store * list positive :=
match refs with
| [] => (σ, [])
| l :: refs' =>
    match σ !! l with
    | Some r =>
        if decide (P r) then
          let (l', σ1) := alloc σ (f r) in
          let (σ2, out) := mapWhere P f σ1 refs' in
          (σ2, l' :: out)
        else
          let (σ2, out) := mapWhere P f σ refs' in
          (σ2, l :: out)
    | None =>
        let (σ2, out) := mapWhere P f σ refs' in
        (σ2, l :: out)
    end
end.

(** [refs.filter((r) => P(r))] *)
Definition filterWhere (P : CanvasResponse.t -> Prop) `{!forall r, Decision (P r)}
    (σ : Store) (refs : list positive) : list positive :=
List.filter (fun l => match σ !! l with
                       | Some r => bool_decide (P r)
                       | None => false
                       end) refs.

Definition mutateRefs (mu : RegistryMutation) (σ : Store) (refs : list positive)
    : Store * list positive :=
match mu with
| Add newResponse =>
    let (l, σ1) := alloc σ newResponse in (σ1, refs ++ [l])
| Update id updates =>
    mapWhere (fun r => CanvasResponse.id r = id)
      (fun r => CanvasResponse.spread r updates) σ refs
| Remove id =>
    (σ, filterWhere (fun r => CanvasResponse.id r <> id) σ refs)
| Clear => (σ, [])
| Succeed provider =>
    mapWhere (fun r => CanvasResponse.provider r = provider
                       /\ CanvasResponse.status r = CanvasResponse.loading)
      (fun r => CanvasResponse.settle r (mockResponses provider) CanvasResponse.success)
      σ refs
| Fail provider =>
    mapWhere (fun r => CanvasResponse.provider r = provider
                       /\ CanvasResponse.status r = CanvasResponse.loading)
      (fun r => CanvasResponse.settle r
                  ("Error: Failed to get response from " +:+ ModelProvider_str provider)
                  CanvasResponse.error)
      σ refs
end.

Fixpoint mutateAll (mus : list RegistryMutation) (σ : Store) (refs : list positive)
    : Store * list positive :=
match mus with
| [] => (σ, refs)
| mu :: mus' => let (σ1, refs1) := mutateRefs mu σ refs in mutateAll mus' σ1 refs1
end.

(** The [responses] array of a timeline entry as [recordBatch] builds it:
    the references of the captured array that pass the filter. *)
Definition snapshot (σ : Store) (captured : list positive)
    (providers : list ModelProvider) (prompt : string) : list positive :=
filterWhere (fun r => CanvasResponse.provider r ∈ providers
                      /\ CanvasResponse.prompt r = prompt) σ captured.

(** Every reference of the array points to an object. *)
Definition allocated (σ : Store) (refs : list positive) : Prop :=
Forall (fun l => is_Some (σ !! l)) refs.

(** The objects an array of references denotes. *)
Definition values (σ : Store) (refs : list positive) : list CanvasResponse.t :=
omap (fun l => σ !! l) refs.

End Alias.


(** ** What a fan-out is expected to leave behind *)

(** The placeholders of a batch: one per provider, in order, with the
    identifiers drawn from position [first] on and the time stamp [ts]. *)
Definition placeholders (nanoid_at : nat -> string) (prompt : string)
    (providers : list ModelProvider) (first : nat) (ts : Z) : list CanvasResponse.t :=
imap (fun k provider =>
        CanvasResponse.mk (nanoid_at (first + k)) provider prompt "" ts CanvasResponse.loading)
     providers.

(** The updater that one settled call applies. *)
Definition outcome (provider : ModelProvider) (call : ProviderCall)
    : list CanvasResponse.t -> list CanvasResponse.t :=
if throws call then onError provider else onSuccess provider.

(** The updaters of a batch, applied in the order of the loop. *)
Fixpoint settleAll (providers : list ModelProvider) (calls : list ProviderCall)
    (rs : list CanvasResponse.t) : list CanvasResponse.t :=
match providers, calls with
| provider :: providers', call :: calls' =>
    settleAll providers' calls' (outcome provider call rs)
| _, _ => rs
end.

Definition totalDelay (calls : list ProviderCall) : Z :=
foldr (fun call acc => delay call + acc)%Z 0%Z calls.

(** The filter of [recordBatch]. *)
Definition batchFilter (providers : list ModelProvider) (prompt : string)
    (rs : list CanvasResponse.t) : list CanvasResponse.t :=
filter (fun r => CanvasResponse.provider r ∈ providers
                 /\ CanvasResponse.prompt r = prompt) rs.

(** The node a completion is meant for, as the specification has it: same
    provider, still loading, same prompt. *)
Definition intended (provider : ModelProvider) (prompt : string)
    (r : CanvasResponse.t) : Prop :=
CanvasResponse.provider r = provider
/\ CanvasResponse.status r = CanvasResponse.loading
/\ CanvasResponse.prompt r = prompt.

(** A node a completion for [provider] applies to, as the code has it. *)
Definition pendingFor (provider : ModelProvider) (r : CanvasResponse.t) : Prop :=
CanvasResponse.provider r = provider /\ CanvasResponse.status r = CanvasResponse.loading.

(** ** Sample runs *)

Module Sample.

(** An identifier generator for the examples; [nanoid] itself is random. *)
Definition nanoid_at (n : nat) : string := "node-" +:+ pretty n.

Definition empty : Machine := mkMachine [] [] [] 0 0.

(** Two settled answers and a correction link from the first to the second. *)
Definition nodeA : CanvasResponse.t :=
CanvasResponse.mk "node-0" deepseek "sort a list" (mockResponses deepseek) 10
  CanvasResponse.success.

Definition nodeB : CanvasResponse.t :=
CanvasResponse.mk "node-1" openai "sort a list" (mockResponses openai) 10
  CanvasResponse.success.

Definition linkAB : CorrectionLink.t :=
CorrectionLink.mk "node-2" "node-0" "deepseek" "node-1" "openai"
  CorrectionLink.code_review CorrectionLink.pending None 20.

Definition linked : Machine := mkMachine [nodeA; nodeB] [] [linkAB] 30 3.

(** A placeholder of an earlier prompt, still loading, for [openai]. *)
Definition stale : CanvasResponse.t :=
CanvasResponse.mk "node-0" openai "first question" "" 5 CanvasResponse.loading.

Definition overlapping : Machine := mkMachine [stale] [] [] 40 1.

(** One provider slow, the next one fast; both within the range of the
    timer, [1000 <= delay < 3000]. *)
Definition slowThenFast : list ProviderCall := [mkCall 2500 false; mkCall 1000 false].

(** A network that is down. *)
Definition offline (_ : ApiValidation.Request) : ApiValidation.FetchResult :=
ApiValidation.fetch_rejects (ApiValidation.thrown_Error "Failed to fetch").

End Sample.


(** ** Further sample data *)

Module Demo.

Definition entryA : TimelineEntry.t :=
TimelineEntry.mk "node-7" "Sort a list in Rust" [openai; deepseek] 100 ["code"; "rust"] [].

Definition entryB : TimelineEntry.t :=
TimelineEntry.mk "node-4" "Capital of France" [gemini] 50 ["facts"; "code"] [].

Definition ledger : list TimelineEntry.t := [entryA; entryB].

(** A browser storage that works and holds a key for [gemini]. *)
Definition browser : SecureStorage.LocalStorage :=
SecureStorage.mkStorage {[ "agentic_os_gemini_key" := "g-123" ]} false false.

(** Private browsing: every access to the storage throws. *)
Definition blocked : SecureStorage.LocalStorage :=
SecureStorage.mkStorage ∅ true false.

(** A network on which every key is accepted. *)
Definition accepting (_ : ApiValidation.Request) : ApiValidation.FetchResult :=
ApiValidation.fetch_response true (ApiValidation.body_message None).

(** A network on which every key is refused. *)
Definition refusing (_ : ApiValidation.Request) : ApiValidation.FetchResult :=
ApiValidation.fetch_response false
  (ApiValidation.body_message (Some "Incorrect API key provided")).

Definition vault (key : string) : ConnectionVault.State :=
ConnectionVault.mkState openai key false false None [gemini].

Definition canvas : InfiniteCanvas.State :=
InfiniteCanvas.mkState ["node-0"; "node-1"] [InfiniteCanvas.mkEdge "node-0" "node-1"]
  [Sample.nodeA; Sample.nodeB].

Definition nodeC : CanvasResponse.t :=
CanvasResponse.mk "node-5" qwen "sort a list" (mockResponses qwen) 12 CanvasResponse.success.

End Demo.


(** * Properties *)

(** ** The string functions on examples *)

Example toLowerCase_mixed : JsString.toLowerCase "OpenAI GPT-3.5" = "openai gpt-3.5".
Proof. reflexivity. Qed.

Example includes_inside : JsString.includes "deepseek" "seek" = true.
Proof. reflexivity. Qed.

Example includes_empty : JsString.includes "" "" = true.
Proof. reflexivity. Qed.

Example includes_absent : JsString.includes "gemini" "gpt" = false.
Proof. reflexivity. Qed.

Example trim_both_ends : JsString.trim "  sk-test key  " = "sk-test key".
Proof. reflexivity. Qed.

Example trim_blank : JsString.trim "   " = "".
Proof. reflexivity. Qed.

(** ** The add operations *)

Section AddOperations.

Variable nanoid_at : nat -> string.

Lemma addResponse_run response m :
  addResponse nanoid_at response m =
  (tt, mkMachine
         (responses m ++
            [CanvasResponse.mk (nanoid_at (drawn m))
               (CanvasResponse.Input.provider response)
               (CanvasResponse.Input.prompt response)
               (CanvasResponse.Input.response response)
               (now m)
               (CanvasResponse.Input.status response)])
         (timeline m) (correctionLinks m) (now m) (S (drawn m))).
Proof. reflexivity. Qed.

Lemma addTimelineEntry_run entry m :
  addTimelineEntry nanoid_at entry m =
  (tt, mkMachine (responses m)
         (TimelineEntry.mk (nanoid_at (drawn m))
            (TimelineEntry.Input.prompt entry)
            (TimelineEntry.Input.providers entry)
            (now m)
            (TimelineEntry.Input.tags entry)
            (TimelineEntry.Input.responses entry) :: timeline m)
         (correctionLinks m) (now m) (S (drawn m))).
Proof. reflexivity. Qed.

Lemma addCorrectionLink_run link m :
  addCorrectionLink nanoid_at link m =
  (tt, mkMachine (responses m) (timeline m)
         (correctionLinks m ++
            [CorrectionLink.mk (nanoid_at (drawn m))
               (CorrectionLink.Input.sourceNodeId link)
               (CorrectionLink.Input.sourceProvider link)
               (CorrectionLink.Input.targetNodeId link)
               (CorrectionLink.Input.targetProvider link)
               (CorrectionLink.Input.correctionType link)
               (CorrectionLink.Input.status link)
               (CorrectionLink.Input.feedback link)
               (now m)])
         (now m) (S (drawn m))).
Proof. reflexivity. Qed.

(** C10.  Each of [addResponse], [addTimelineEntry] and [addCorrectionLink]
    gives the new entity the identifier that [nanoid()] produces at this
    call and the reading of [Date.now()] at this call, whatever [id] and
    [timestamp] the caller's object carries; the other fields are the
    caller's; the generator moves on; the entries already in the collection
    stay as they are, in place (the new one goes last, or first for the
    timeline); the other two collections are not touched. *)
Theorem add_assigns_fresh_id_and_timestamp :
  (forall response m,
     let m' := exec (addResponse nanoid_at response) m in
     responses m' =
       responses m ++
         [{| CanvasResponse.id := nanoid_at (drawn m);
             CanvasResponse.provider := CanvasResponse.Input.provider response;
             CanvasResponse.prompt := CanvasResponse.Input.prompt response;
             CanvasResponse.response := CanvasResponse.Input.response response;
             CanvasResponse.timestamp := now m;
             CanvasResponse.status := CanvasResponse.Input.status response |}]
     /\ timeline m' = timeline m /\ correctionLinks m' = correctionLinks m
     /\ drawn m' = S (drawn m))
  /\ (forall entry m,
     let m' := exec (addTimelineEntry nanoid_at entry) m in
     timeline m' =
       {| TimelineEntry.id := nanoid_at (drawn m);
          TimelineEntry.prompt := TimelineEntry.Input.prompt entry;
          TimelineEntry.providers := TimelineEntry.Input.providers entry;
          TimelineEntry.timestamp := now m;
          TimelineEntry.tags := TimelineEntry.Input.tags entry;
          TimelineEntry.responses := TimelineEntry.Input.responses entry |}
       :: timeline m
     /\ responses m' = responses m /\ correctionLinks m' = correctionLinks m
     /\ drawn m' = S (drawn m))
  /\ (forall link m,
     let m' := exec (addCorrectionLink nanoid_at link) m in
     correctionLinks m' =
       correctionLinks m ++
         [{| CorrectionLink.id := nanoid_at (drawn m);
             CorrectionLink.sourceNodeId := CorrectionLink.Input.sourceNodeId link;
             CorrectionLink.sourceProvider := CorrectionLink.Input.sourceProvider link;
             CorrectionLink.targetNodeId := CorrectionLink.Input.targetNodeId link;
             CorrectionLink.targetProvider := CorrectionLink.Input.targetProvider link;
             CorrectionLink.correctionType := CorrectionLink.Input.correctionType link;
             CorrectionLink.status := CorrectionLink.Input.status link;
             CorrectionLink.feedback := CorrectionLink.Input.feedback link;
             CorrectionLink.timestamp := now m |}]
     /\ responses m' = responses m /\ timeline m' = timeline m
     /\ drawn m' = S (drawn m)).
Proof.
  split; [|split]; intros x m; unfold exec.
  - rewrite addResponse_run. simpl. auto.
  - rewrite addTimelineEntry_run. simpl. auto.
  - rewrite addCorrectionLink_run. simpl. auto.
Qed.

(** With a generator that never repeats itself, and a registry whose ids
    all come from earlier draws, the id of the new node is not the id of
    any node already there, and the registry is again of that kind. *)
Lemma addResponse_id_is_new response m :
  Inj (=) (=) nanoid_at ->
  Forall (fun r => exists k, k < drawn m /\ CanvasResponse.id r = nanoid_at k) (responses m) ->
  let m' := exec (addResponse nanoid_at response) m in
  Forall (fun r => CanvasResponse.id r <> nanoid_at (drawn m)) (responses m)
  /\ Forall (fun r => exists k, k < drawn m' /\ CanvasResponse.id r = nanoid_at k) (responses m').
Proof.
  intros Hinj Hold. unfold exec. rewrite addResponse_run. simpl. split.
  - eapply Forall_impl; [exact Hold|]. intros r (k & Hk & ->) Heq.
    apply Hinj in Heq. lia.
  - apply Forall_app. split.
    + eapply Forall_impl; [exact Hold|]. intros r (k & Hk & ->). exists k. split; [lia|done].
    + constructor; [|constructor]. exists (drawn m). simpl. split; [lia|done].
Qed.

End AddOperations.


(** ** Deleting a response *)

Lemma removeResponse_run id m :
  removeResponse id m =
  (tt, mkMachine (filter (fun r => CanvasResponse.id r <> id) (responses m))
         (timeline m) (correctionLinks m) (now m) (drawn m)).
Proof. reflexivity. Qed.

(** [removeResponse] takes the node out of the registry and does nothing to
    the correction links. *)
Lemma removeResponse_keeps_links id m :
  let m' := exec (removeResponse id) m in
  (forall r, r ∈ responses m' <-> r ∈ responses m /\ CanvasResponse.id r <> id)
  /\ correctionLinks m' = correctionLinks m.
Proof.
  unfold exec. rewrite removeResponse_run. simpl. split; [|done].
  intros r. by rewrite list_elem_of_filter, (comm and).
Qed.

(** The canvas component's [deleteNode] does cascade: no edge that touches
    the deleted node is left. *)
Lemma deleteNode_cascades nodeId st e :
  e ∈ InfiniteCanvas.edges (InfiniteCanvas.deleteNode nodeId st) ->
  InfiniteCanvas.source e <> nodeId /\ InfiniteCanvas.target e <> nodeId.
Proof. simpl. rewrite list_elem_of_filter. tauto. Qed.

(** C2, on the orchestrator.  In the sample machine the link [linkAB] goes
    from [nodeA] to [nodeB].  After [removeResponse] of [nodeA] the node is
    gone and the link whose source it was is still in [correctionLinks]. *)
Theorem removeResponse_leaves_dangling_link :
  let m' := exec (removeResponse (CanvasResponse.id Sample.nodeA)) Sample.linked in
  responses m' = [Sample.nodeB]
  /\ correctionLinks m' = [Sample.linkAB]
  /\ CorrectionLink.sourceNodeId Sample.linkAB = CanvasResponse.id Sample.nodeA.
Proof. vm_compute. done. Qed.


(** ** The fan-out *)

Section FanOut.

Variable nanoid_at : nat -> string.

Lemma forEach_addResponse prompt providers m :
  forEach providers (fun provider =>
    addResponse nanoid_at
      (CanvasResponse.literal provider prompt "" CanvasResponse.loading)) m =
  (tt, mkMachine
         (responses m ++ placeholders nanoid_at prompt providers (drawn m) (now m))
         (timeline m) (correctionLinks m) (now m) (drawn m + length providers)).
Proof.
  revert m. induction providers as [|p ps IH]; intros m.
  - simpl. unfold placeholders. simpl. rewrite app_nil_r, Nat.add_0_r.
    by destruct m.
  - simpl. unfold mbind, M_bind. rewrite addResponse_run. rewrite IH. simpl.
    f_equal. f_equal.
    + rewrite <- app_assoc. f_equal. unfold placeholders. simpl.
      rewrite Nat.add_0_r. f_equal. apply imap_ext. intros k x _. simpl.
      do 2 f_equal. lia.
    + lia.
Qed.

Lemma placeholders_length prompt providers first ts :
  length (placeholders nanoid_at prompt providers first ts) = length providers.
Proof. unfold placeholders. by rewrite length_imap. Qed.

Lemma Forall2_imap {A B} (P : A -> B -> Prop) (f : nat -> A -> B) (l : list A) :
  (forall k x, P x (f k x)) -> Forall2 P l (imap f l).
Proof.
  revert f. induction l as [|x l IH]; intros f Hf; simpl; constructor.
  - apply Hf.
  - apply IH. intros k y. apply Hf.
Qed.

Lemma placeholders_pending prompt providers first ts :
  Forall2 (fun provider r =>
             CanvasResponse.provider r = provider
             /\ CanvasResponse.prompt r = prompt
             /\ CanvasResponse.response r = ""
             /\ CanvasResponse.status r = CanvasResponse.loading)
    providers (placeholders nanoid_at prompt providers first ts).
Proof. apply Forall2_imap. done. Qed.

Lemma start_run cl m :
  sendPromptToMultipleModels_start nanoid_at cl m =
  iterate nanoid_at cl (cl_providers cl)
    (mkMachine
       (responses m ++ placeholders nanoid_at (cl_prompt cl) (cl_providers cl) (drawn m) (now m))
       (timeline m) (correctionLinks m) (now m) (drawn m + length (cl_providers cl))).
Proof.
  unfold sendPromptToMultipleModels_start, mbind, M_bind.
  by rewrite forEach_addResponse.
Qed.

(** C3.  The synchronous part of a fan-out, run on any machine for any
    prompt and any list of [n] providers, appends to the registry exactly
    [n] nodes, the [k]-th carrying the [k]-th provider, the prompt, the
    empty output and the status loading; no timer has run; and when the
    list is not empty the call is then suspended at the await of the first
    provider, so that no provider call has resolved. *)
Theorem fanOut_registers_all_placeholders cl m :
  let '(t, m') := sendPromptToMultipleModels_start nanoid_at cl m in
  let news := placeholders nanoid_at (cl_prompt cl) (cl_providers cl) (drawn m) (now m) in
  responses m' = responses m ++ news
  /\ length news = length (cl_providers cl)
  /\ Forall2 (fun provider r =>
                CanvasResponse.provider r = provider
                /\ CanvasResponse.prompt r = cl_prompt cl
                /\ CanvasResponse.response r = ""
                /\ CanvasResponse.status r = CanvasResponse.loading)
       (cl_providers cl) news
  /\ now m' = now m
  /\ match cl_providers cl with
     | provider :: rest => t = Awaiting provider rest /\ timeline m' = timeline m
     | [] => t = Returned
     end.
Proof.
  rewrite start_run.
  pose proof (placeholders_length (cl_prompt cl) (cl_providers cl) (drawn m) (now m)) as Hlen.
  pose proof (placeholders_pending (cl_prompt cl) (cl_providers cl) (drawn m) (now m)) as Hall.
  destruct (cl_providers cl) as [|p rest] eqn:Hps; simpl; auto 10.
Qed.

(** The page's handler reaches that synchronous part exactly when the
    prompt has something other than white space and a provider is selected;
    otherwise it reports and leaves the machine alone. *)
Lemma handleSendPrompt_run prompt selectedProviders m :
  Home.handleSendPrompt nanoid_at prompt selectedProviders m =
  if decide (JsString.trim prompt = "") then
    (inl (toast_error "Prompt cannot be empty"), m)
  else if decide (length selectedProviders = 0) then
    (inl (toast_error "Select at least one provider"), m)
  else
    let r := sendPromptToMultipleModels_start nanoid_at
               (mkClosure (responses m) prompt selectedProviders) m in
    (inr (fst r), snd r).
Proof.
  unfold Home.handleSendPrompt.
  repeat case_decide; try done.
  simpl. by destruct (sendPromptToMultipleModels_start _ _ _).
Qed.

Lemma resume_run cl call provider rest m :
  sendPromptToMultipleModels_resume nanoid_at cl call (Awaiting provider rest) m =
  iterate nanoid_at cl rest
    (mkMachine (outcome provider call (responses m)) (timeline m) (correctionLinks m)
       (now m + delay call) (drawn m)).
Proof. unfold outcome. by destruct call as [d []]. Qed.

Lemma recordBatch_run cl m :
  recordBatch nanoid_at cl m =
  (tt, mkMachine (responses m)
         (TimelineEntry.mk (nanoid_at (drawn m)) (cl_prompt cl) (cl_providers cl) (now m) []
            (batchFilter (cl_providers cl) (cl_prompt cl) (cl_responses cl))
          :: timeline m)
         (correctionLinks m) (now m) (S (drawn m))).
Proof. reflexivity. Qed.

Lemma resumeAll_cons cl call calls t m :
  resumeAll nanoid_at cl (call :: calls) t m =
  let (t', m') := sendPromptToMultipleModels_resume nanoid_at cl call t m in
  resumeAll nanoid_at cl calls t' m'.
Proof. reflexivity. Qed.

(** A batch whose calls all settle, undisturbed: the updaters are applied
    in the order of the provider list, the clock has advanced by the sum of
    the delays, and one entry is put in front of the timeline. *)
Lemma resumeAll_run cl calls provider rest m :
  length calls = S (length rest) ->
  resumeAll nanoid_at cl calls (Awaiting provider rest) m =
  (Returned,
   mkMachine (settleAll (provider :: rest) calls (responses m))
     (TimelineEntry.mk (nanoid_at (drawn m)) (cl_prompt cl) (cl_providers cl)
        (now m + totalDelay calls) []
        (batchFilter (cl_providers cl) (cl_prompt cl) (cl_responses cl))
      :: timeline m)
     (correctionLinks m) (now m + totalDelay calls) (S (drawn m))).
Proof.
  revert provider calls m. induction rest as [|q rest IH]; intros provider calls m Hlen.
  - destruct calls as [|call [|? ?]]; try done.
    rewrite resumeAll_cons, resume_run. simpl iterate.
    unfold mbind, M_bind. rewrite recordBatch_run. simpl.
    by rewrite Z.add_0_r.
  - destruct calls as [|call calls]; [done|].
    simpl in Hlen. injection Hlen as Hlen.
    rewrite resumeAll_cons, resume_run. simpl iterate. unfold mret, M_ret.
    rewrite IH by done. simpl. f_equal. f_equal; [f_equal; f_equal|]; lia.
Qed.

Lemma sendPromptToMultipleModels_run prompt providers calls m :
  length calls = length providers ->
  sendPromptToMultipleModels nanoid_at prompt providers calls m =
  (Returned,
   mkMachine
     (settleAll providers calls
        (responses m ++ placeholders nanoid_at prompt providers (drawn m) (now m)))
     (TimelineEntry.mk (nanoid_at (drawn m + length providers)) prompt providers
        (now m + totalDelay calls) []
        (batchFilter providers prompt (responses m))
      :: timeline m)
     (correctionLinks m) (now m + totalDelay calls) (S (drawn m + length providers))).
Proof.
  intros Hlen. unfold sendPromptToMultipleModels, mbind, M_bind.
  rewrite start_run. simpl.
  destruct providers as [|p rest].
  - destruct calls; [|done]. simpl iterate. unfold mbind, M_bind.
    rewrite recordBatch_run. simpl. by rewrite Z.add_0_r, Nat.add_0_r.
  - simpl iterate. unfold mret, M_ret. rewrite resumeAll_run by done. done.
Qed.

End FanOut.

(** ** Completions *)

Lemma outcome_map provider call rs :
  outcome provider call rs =
  List.map (fun r =>
    if decide (CanvasResponse.provider r = provider
               /\ CanvasResponse.status r = CanvasResponse.loading)
    then CanvasResponse.settle r
           (if throws call
            then "Error: Failed to get response from " +:+ ModelProvider_str provider
            else mockResponses provider)
           (if throws call then CanvasResponse.error else CanvasResponse.success)
    else r) rs.
Proof. unfold outcome, onError, onSuccess. by destruct (throws call). Qed.

(** A completion neither adds nor removes a node, and keeps every id: a
    node that was deleted while the call was in flight does not come back. *)
Lemma outcome_ids provider call rs :
  CanvasResponse.id <$> outcome provider call rs = CanvasResponse.id <$> rs.
Proof.
  rewrite outcome_map. induction rs as [|r rs IH]; [done|].
  cbn [List.map fmap list_fmap]. f_equal; [by case_decide | apply IH].
Qed.

(** A node of another provider, or one that has settled already, is passed
    on as it is. *)
Lemma outcome_lookup provider call rs k r :
  rs !! k = Some r ->
  ~ (CanvasResponse.provider r = provider
     /\ CanvasResponse.status r = CanvasResponse.loading) ->
  outcome provider call rs !! k = Some r.
Proof.
  intros Hk Hno. rewrite outcome_map.
  change (List.map ?f ?l) with (f <$> l).
  rewrite list_lookup_fmap, Hk. simpl. by rewrite decide_False.
Qed.

(** With no loading node of the provider in the registry the outcome is
    dropped. *)
Lemma outcome_discarded provider call rs :
  Forall (fun r => ~ (CanvasResponse.provider r = provider
                      /\ CanvasResponse.status r = CanvasResponse.loading)) rs ->
  outcome provider call rs = rs.
Proof.
  rewrite outcome_map. induction 1 as [|r rs Hr _ IH]; [done|].
  simpl. rewrite IH. by rewrite decide_False.
Qed.

(** Every loading node of the provider is settled, whatever its prompt. *)
Lemma outcome_settles provider call rs k r :
  rs !! k = Some r ->
  CanvasResponse.provider r = provider ->
  CanvasResponse.status r = CanvasResponse.loading ->
  exists r', outcome provider call rs !! k = Some r'
    /\ CanvasResponse.id r' = CanvasResponse.id r
    /\ CanvasResponse.prompt r' = CanvasResponse.prompt r
    /\ CanvasResponse.status r' <> CanvasResponse.loading.
Proof.
  intros Hk Hp Hs. rewrite outcome_map.
  change (List.map ?f ?l) with (f <$> l).
  rewrite list_lookup_fmap, Hk. simpl. rewrite decide_True by done.
  eexists; split; [done|]. simpl. by destruct (throws call).
Qed.

(** C1, where the code departs from it.  The registry holds a placeholder
    of [openai] for "first question", still loading.  A fan-out of
    "second question" to [openai] then runs to its end.  Its completion
    settles both placeholders: the node of the other prompt, which is not
    [intended] for this call, is changed from loading to success. *)
Theorem completion_settles_node_of_other_prompt :
  let '(t, m') :=
    sendPromptToMultipleModels Sample.nanoid_at "second question" [openai]
      [mkCall 1500 false] Sample.overlapping in
  responses Sample.overlapping = [Sample.stale]
  /\ ~ intended openai "second question" Sample.stale
  /\ responses m' =
       [CanvasResponse.settle Sample.stale (mockResponses openai) CanvasResponse.success;
        CanvasResponse.mk "node-1" openai "second question" (mockResponses openai) 40
          CanvasResponse.success].
Proof.
  vm_compute. split; [done|]. split; [|done]. intros (_ & _ & H). discriminate H.
Qed.

(** ** The timeline entry of a batch *)

(** C4, where the code departs from it.  On the empty machine a fan-out of
    "ping" to [openai] and [gemini] runs to its end.  One entry is recorded,
    in front, with the two providers; its [responses] is empty, although at
    that moment the registry holds the two nodes of the batch, both matching
    the provider list and the prompt.  The filter ran over the [responses]
    the callback had closed over, from before the batch. *)
Theorem timeline_snapshot_misses_the_batch :
  let '(t, m') :=
    sendPromptToMultipleModels Sample.nanoid_at "ping" [openai; gemini]
      [mkCall 1200 false; mkCall 1800 false] Sample.empty in
  t = Returned
  /\ TimelineEntry.providers <$> timeline m' = [[openai; gemini]]
  /\ TimelineEntry.responses <$> timeline m' = [[]]
  /\ length (batchFilter [openai; gemini] "ping" (responses m')) = 2.
Proof. vm_compute. done. Qed.

(** ** The order of the provider calls *)

(** After the first [k] calls of a batch have settled the call is
    suspended at the await of provider [k + 1], whose timer starts only
    now: the clock has advanced by the sum of the [k] delays. *)
Lemma resumeAll_partial nanoid_at cl calls provider settled q rest m :
  length calls = S (length settled) ->
  resumeAll nanoid_at cl calls (Awaiting provider (settled ++ q :: rest)) m =
  (Awaiting q rest,
   mkMachine (settleAll (provider :: settled) calls (responses m))
     (timeline m) (correctionLinks m) (now m + totalDelay calls) (drawn m)).
Proof.
  revert provider calls m. induction settled as [|p settled IH]; intros provider calls m Hlen.
  - destruct calls as [|call [|? ?]]; try done.
    rewrite resumeAll_cons, resume_run. simpl. by rewrite Z.add_0_r.
  - destruct calls as [|call calls]; [done|].
    simpl in Hlen. injection Hlen as Hlen.
    rewrite resumeAll_cons, resume_run. simpl iterate. unfold mret, M_ret.
    rewrite IH by done. simpl. do 2 f_equal. lia.
Qed.

(** The loop goes on to the next provider after a failure as after a
    success. *)
Lemma failure_does_not_stop_the_loop nanoid_at cl d t m :
  fst (sendPromptToMultipleModels_resume nanoid_at cl (mkCall d true) t m) =
  fst (sendPromptToMultipleModels_resume nanoid_at cl (mkCall d false) t m).
Proof.
  destruct t as [p rest|]; [|done].
  rewrite !resume_run. by destruct rest.
Qed.

(** C9, where the code departs from it.  A fan-out to [openai] and [gemini]
    where the timer of [openai] runs 2500 ms and the one of [gemini]
    1000 ms.  When the call is first suspended it waits for [openai] only.
    At 2500 ms [openai] settles and [gemini] is still loading: its timer is
    started then.  The result of [gemini] arrives at 3500 ms. *)
Theorem slow_provider_delays_the_next :
  let cl := mkClosure [] "ping" [openai; gemini] in
  let '(t0, m0) := sendPromptToMultipleModels_start Sample.nanoid_at cl Sample.empty in
  let '(t1, m1) := sendPromptToMultipleModels_resume Sample.nanoid_at cl (mkCall 2500 false) t0 m0 in
  let '(t2, m2) := sendPromptToMultipleModels_resume Sample.nanoid_at cl (mkCall 1000 false) t1 m1 in
  (t0 = Awaiting openai [gemini] /\ now m0 = 0%Z)
  /\ (t1 = Awaiting gemini [] /\ now m1 = 2500%Z
      /\ CanvasResponse.status <$> responses m1
         = [CanvasResponse.success; CanvasResponse.loading])
  /\ (t2 = Returned /\ now m2 = 3500%Z
      /\ CanvasResponse.status <$> responses m2
         = [CanvasResponse.success; CanvasResponse.success]).
Proof. vm_compute. done. Qed.

(** ** Searching the timeline *)

Section StringFacts.

Import JsString.

Lemma map_app f a b : map f (a +:+ b) = map f a +:+ map f b.
Proof. induction a as [|c a IH]; simpl; [done|]. by rewrite IH. Qed.

Lemma map_app_inv f s a b :
  map f s = a +:+ b ->
  exists s1 s2, s = s1 +:+ s2 /\ map f s1 = a /\ map f s2 = b.
Proof.
  revert s. induction a as [|c a IH]; intros s H.
  - by exists "", s.
  - destruct s as [|c0 s]; [done|]. simpl in H. injection H as Hc Hs.
    destruct (IH s Hs) as (s1 & s2 & -> & H1 & H2).
    exists (String c0 s1), s2. simpl. by rewrite Hc, H1, H2.
Qed.

Lemma startsWith_spec s q :
  startsWith s q = true <-> exists post, s = q +:+ post.
Proof.
  revert s. induction q as [|b q IH]; intros s.
  - simpl. split; [intros _; by exists s | done].
  - destruct s as [|a s]; simpl.
    + split; [done | by intros [? ?]].
    + rewrite andb_true_iff, bool_decide_eq_true, IH. split.
      * intros [-> [post ->]]. by exists post.
      * intros [post H]. injection H as -> ->. eauto.
Qed.

Lemma includes_spec s q :
  includes s q = true <-> exists pre post, s = pre +:+ q +:+ post.
Proof.
  induction s as [|c s IH]; simpl; rewrite orb_true_iff, startsWith_spec.
  - split.
    + intros [[post H]|?]; [|done]. by exists "", post.
    + intros (pre & post & H). left. destruct pre; [|done]. by exists post.
  - rewrite IH. split.
    + intros [[post H]|(pre & post & ->)].
      * by exists "", post.
      * by exists (String c pre), post.
    + intros (pre & post & H). destruct pre as [|c' pre].
      * left. by exists post.
      * right. injection H as -> ->. by exists pre, post.
Qed.

(** [a.toLowerCase().includes(b.toLowerCase())] is the case-insensitive
    substring test. *)
Lemma includes_lower s q :
  includes (toLowerCase s) (toLowerCase q) = true <-> SemanticTimeline.ci_substring q s.
Proof.
  rewrite includes_spec. unfold SemanticTimeline.ci_substring, toLowerCase. split.
  - intros (pre & post & H).
    apply map_app_inv in H as (s1 & s23 & -> & _ & H).
    apply map_app_inv in H as (s2 & s3 & -> & H & _).
    by exists s1, s2, s3.
  - intros (pre & mid & post & -> & H).
    exists (map lowerChar pre), (map lowerChar post).
    by rewrite !map_app, H.
Qed.

End StringFacts.

Lemma existsb_elem_of {A} (f : A -> bool) (l : list A) :
  existsb f l = true <-> exists x, x ∈ l /\ f x = true.
Proof.
  rewrite existsb_exists. split; intros (x & H & ?); exists x; split; try done;
    by apply list_elem_of_In.
Qed.

Lemma matchesSearch_spec query e :
  SemanticTimeline.matchesSearch query e = true <->
  query = ""
  \/ SemanticTimeline.ci_substring query (TimelineEntry.prompt e)
  \/ (exists t, t ∈ TimelineEntry.tags e /\ SemanticTimeline.ci_substring query t)
  \/ (exists p, p ∈ TimelineEntry.providers e
                /\ SemanticTimeline.ci_substring query (ModelProvider_str p)).
Proof.
  unfold SemanticTimeline.matchesSearch.
  rewrite !orb_true_iff, bool_decide_eq_true, includes_lower, !existsb_elem_of.
  setoid_rewrite includes_lower. tauto.
Qed.

Lemma matchesTag_spec tag e :
  SemanticTimeline.matchesTag tag e = true <->
  tag = None \/ exists t, tag = Some t /\ t ∈ TimelineEntry.tags e.
Proof.
  destruct tag as [t|]; simpl.
  - rewrite bool_decide_eq_true. split.
    + intros H. right. by exists t.
    + intros [?|(t' & [= ->] & H)]; done.
  - split; [by left | done].
Qed.

Lemma search_matches_spec query tag e :
  SemanticTimeline.matchesSearch query e && SemanticTimeline.matchesTag tag e = true
  <-> SemanticTimeline.search_matches query tag e.
Proof.
  unfold SemanticTimeline.search_matches.
  by rewrite andb_true_iff, matchesSearch_spec, matchesTag_spec.
Qed.


(** A selection is a subsequence, holds exactly the elements that satisfy
    the predicate, and is determined by the list and the predicate. *)
Lemma selection_sublist {A} (P : A -> Prop) (l l' : list A) :
  SemanticTimeline.selection P l l' -> sublist l' l.
Proof. induction 1; by constructor. Qed.

Lemma selection_elem_of {A} (P : A -> Prop) (l l' : list A) x :
  SemanticTimeline.selection P l l' -> x ∈ l' <-> x ∈ l /\ P x.
Proof.
  induction 1 as [|y l l' Hy _ IH|y l l' Hy _ IH]; rewrite ?elem_of_cons.
  - rewrite elem_of_nil. tauto.
  - rewrite IH. split; [|tauto]. intros [->|?]; tauto.
  - rewrite IH. split; [tauto|]. intros [[->|?] ?]; tauto.
Qed.

Lemma selection_unique {A} (P : A -> Prop) (l l1 l2 : list A) :
  SemanticTimeline.selection P l l1 -> SemanticTimeline.selection P l l2 -> l1 = l2.
Proof.
  intros H1. revert l2. induction H1; intros l2 H2; inversion H2; subst;
    try done; f_equal; auto.
Qed.


(** ** Creating a correction link *)

Lemma truthy_Some s : truthy (Some s) = true <-> s <> "".
Proof.
  simpl. rewrite negb_true_iff, bool_decide_eq_false. done.
Qed.

(** C6.  Through the panel, with the same selection [a] as source and as
    target, whatever [a] and the correction type, the handler reports an
    error and the machine and the panel are as before: no link is added.
    With two different node ids, neither of them the empty string (an id is
    an output of [nanoid()]), the handler reports success and one link is
    appended whose status is pending, with the selected source, target and
    type. *)
Theorem createLink_validates nanoid_at :
  (forall a kind creating m,
     let st := SelfCorrectionPanel.mkState a a kind creating in
     Home.createLink nanoid_at st m =
       (toast_error (if truthy a then "Source and target must be different nodes"
                     else "Select both source and target nodes"), st, m))
  /\ (forall source target kind creating m,
      source <> "" -> target <> "" -> source <> target ->
      exists newLink,
        Home.createLink nanoid_at
          (SelfCorrectionPanel.mkState (Some source) (Some target) kind creating) m =
          (toast_success "Correction link created",
           SelfCorrectionPanel.mkState None None CorrectionLink.code_review false,
           mkMachine (responses m) (timeline m) (correctionLinks m ++ [newLink])
             (now m) (S (drawn m)))
        /\ CorrectionLink.status newLink = CorrectionLink.pending
        /\ CorrectionLink.sourceNodeId newLink = source
        /\ CorrectionLink.targetNodeId newLink = target
        /\ CorrectionLink.correctionType newLink = kind
        /\ CorrectionLink.id newLink = nanoid_at (drawn m)).
Proof.
  split.
  - intros a kind creating m st.
    unfold Home.createLink, SelfCorrectionPanel.handleCreateLink. simpl.
    destruct (truthy a); simpl; [|done]. by rewrite decide_True.
  - intros source target kind creating m Hs Ht Hne.
    unfold Home.createLink, SelfCorrectionPanel.handleCreateLink. simpl.
    apply truthy_Some in Hs, Ht. simpl in Hs, Ht. rewrite Hs, Ht. simpl.
    rewrite decide_False by congruence.
    unfold mbind, M_bind, Home.handleCreateCorrectionLink.
    rewrite addCorrectionLink_run. simpl.
    eexists. split; [reflexivity|]. simpl. done.
Qed.

Lemma createLink_validates_witness :
  exists newLink,
    Home.createLink Sample.nanoid_at
      (SelfCorrectionPanel.mkState (Some "node-0") (Some "node-1")
         CorrectionLink.fact_check false) Sample.linked =
      (toast_success "Correction link created",
       SelfCorrectionPanel.mkState None None CorrectionLink.code_review false,
       mkMachine (responses Sample.linked) (timeline Sample.linked)
         (correctionLinks Sample.linked ++ [newLink])
         (now Sample.linked) (S (drawn Sample.linked)))
    /\ CorrectionLink.status newLink = CorrectionLink.pending
    /\ CorrectionLink.sourceNodeId newLink = "node-0"
    /\ CorrectionLink.targetNodeId newLink = "node-1"
    /\ CorrectionLink.correctionType newLink = CorrectionLink.fact_check
    /\ CorrectionLink.id newLink = Sample.nanoid_at (drawn Sample.linked).
Proof.
  apply (proj2 (createLink_validates Sample.nanoid_at)); discriminate.
Defined.

(** The facade's [addCorrectionLink] itself has no such guard: it stores
    whatever it is handed. *)
Example addCorrectionLink_stores_self_link :
  let self :=
    CorrectionLink.Input.mk None None "node-0" "deepseek" "node-0" "deepseek"
      CorrectionLink.code_review CorrectionLink.pending None in
  length (correctionLinks (exec (addCorrectionLink Sample.nanoid_at self) Sample.empty)) = 1.
Proof. reflexivity. Qed.

(** ** Validating a key *)

Section TrimFacts.

Import JsString.

Lemma trimEnd_empty s : trimEnd s = "" <-> allWhiteSpace s = true.
Proof.
  induction s as [|c s IH]; simpl; [done|].
  rewrite andb_true_iff, <- IH.
  destruct (trimEnd s), (isWhiteSpace c); split; try done; by intros [? ?].
Qed.

Lemma allWhiteSpace_trimStart s : allWhiteSpace (trimStart s) = allWhiteSpace s.
Proof.
  induction s as [|c s IH]; simpl; [done|].
  destruct (isWhiteSpace c) eqn:Hc; simpl; [done|]. by rewrite Hc.
Qed.

(** The trimmed string is empty exactly for the strings made of white
    space only, the empty string among them. *)
Lemma trim_empty s : trim s = "" <-> allWhiteSpace s = true.
Proof. unfold trim. by rewrite trimEnd_empty, allWhiteSpace_trimStart. Qed.

Lemma length_zero s : String.length s = 0 <-> s = "".
Proof. by destruct s. Qed.

End TrimFacts.

Section Validation.

Import ApiValidation.

Variable fetch : Request -> FetchResult.
Variable Date_now : Z.

Lemma exchange_once provider request validated :
  snd (exchange fetch Date_now provider request validated) = [request].
Proof. reflexivity. Qed.

(** C7, as the code has it.  For a key that is empty or white space only,
    [validateAPIKey] answers with [success = false] and the message
    "API key cannot be empty", and issues no request.  For any other key it
    issues exactly one request. *)
Theorem validateAPIKey_guards_then_one_exchange provider apiKey :
  (JsString.allWhiteSpace apiKey = true ->
     validateAPIKey fetch Date_now provider apiKey =
       (mkResult false "API key cannot be empty" provider Date_now, []))
  /\ (JsString.allWhiteSpace apiKey <> true ->
     length (snd (validateAPIKey fetch Date_now provider apiKey)) = 1).
Proof.
  unfold validateAPIKey. split; intros H.
  - apply trim_empty in H. rewrite H. simpl. by rewrite orb_true_r.
  - assert (apiKey <> "") as H0 by (intros ->; by apply H).
    rewrite <- trim_empty, <- length_zero in H.
    rewrite (bool_decide_eq_false_2 _ H0), (bool_decide_eq_false_2 _ H). simpl.
    by destruct provider.
Qed.

End Validation.

Lemma validateAPIKey_guards_then_one_exchange_witness :
  ApiValidation.validateAPIKey Sample.offline 7 gemini "  " =
    (ApiValidation.mkResult false "API key cannot be empty" gemini 7, [])
  /\ length (snd (ApiValidation.validateAPIKey Sample.offline 7 gemini "sk-test")) = 1.
Proof.
  split.
  - apply (proj1 (validateAPIKey_guards_then_one_exchange Sample.offline 7 gemini "  ")).
    reflexivity.
  - apply (proj2 (validateAPIKey_guards_then_one_exchange Sample.offline 7 gemini "sk-test")).
    vm_compute. discriminate.
Defined.

(** C7 as the specification words the reason: on the empty key the message
    the validator returns is not "empty credential". *)
Lemma validateAPIKey_reason_is_not_empty_credential :
  let '(result, requests) := ApiValidation.validateAPIKey Sample.offline 7 openai "" in
  ApiValidation.success result = false
  /\ requests = []
  /\ ApiValidation.message result <> "empty credential".
Proof. vm_compute. split; [done|]. split; [done|]. discriminate. Qed.

(** ** History does not follow the registry *)

(** The operations of the orchestrator as registry mutations. *)
Lemma operations_mutate nanoid_at m :
  (forall response,
     responses (exec (addResponse nanoid_at response) m) =
     mutate (Add (CanvasResponse.mk (nanoid_at (drawn m))
                    (CanvasResponse.Input.provider response)
                    (CanvasResponse.Input.prompt response)
                    (CanvasResponse.Input.response response) (now m)
                    (CanvasResponse.Input.status response))) (responses m))
  /\ (forall id updates,
     responses (exec (updateResponse id updates) m) = mutate (Update id updates) (responses m))
  /\ (forall id, responses (exec (removeResponse id) m) = mutate (Remove id) (responses m))
  /\ responses (exec clearResponses m) = mutate Clear (responses m)
  /\ (forall provider,
     responses (exec (setResponses (onSuccess provider)) m) = mutate (Succeed provider) (responses m))
  /\ (forall provider,
     responses (exec (setResponses (onError provider)) m) = mutate (Fail provider) (responses m)).
Proof. repeat split. Qed.

Section AliasFacts.

Import Alias.

Lemma alloc_extends (σ : Store) v : σ ⊆ (alloc σ v).2.
Proof.
  unfold alloc. simpl. apply insert_subseteq.
  apply not_elem_of_dom. apply is_fresh.
Qed.

Lemma alloc_lookup (σ : Store) v : (alloc σ v).2 !! (alloc σ v).1 = Some v.
Proof. unfold alloc. simpl. apply lookup_insert_eq. Qed.

Lemma allocated_mono (σ σ' : Store) refs : σ ⊆ σ' -> allocated σ refs -> allocated σ' refs.
Proof.
  intros Hsub Hall. eapply Forall_impl; [exact Hall|]. intros l [v Hv].
  exists v. by eapply lookup_weaken.
Qed.

Lemma values_cons (σ : Store) l refs :
  values σ (l :: refs) =
  match σ !! l with Some v => v :: values σ refs | None => values σ refs end.
Proof. reflexivity. Qed.

Lemma values_mono (σ σ' : Store) refs :
  σ ⊆ σ' -> allocated σ refs -> values σ' refs = values σ refs.
Proof.
  intros Hsub. induction 1 as [|l refs [v Hv] _ IH]; [done|].
  rewrite !values_cons, Hv, (lookup_weaken _ _ _ _ Hv Hsub). by rewrite IH.
Qed.

Lemma mapWhere_cons P `{!forall r, Decision (P r)} f (σ : Store) l refs :
  mapWhere P f σ (l :: refs) =
  match σ !! l with
  | Some r =>
      if decide (P r) then
        let σ1 := (alloc σ (f r)).2 in
        ((mapWhere P f σ1 refs).1, (alloc σ (f r)).1 :: (mapWhere P f σ1 refs).2)
      else ((mapWhere P f σ refs).1, l :: (mapWhere P f σ refs).2)
  | None => ((mapWhere P f σ refs).1, l :: (mapWhere P f σ refs).2)
  end.
Proof.
  cbn [mapWhere]. destruct (σ !! l) as [r|]; [destruct (decide (P r))|].
  - unfold alloc. cbn. by destruct (mapWhere P f _ refs).
  - by destruct (mapWhere P f σ refs).
  - by destruct (mapWhere P f σ refs).
Qed.

Lemma mapWhere_extends P `{!forall r, Decision (P r)} f (σ : Store) refs :
  σ ⊆ (mapWhere P f σ refs).1.
Proof.
  revert σ. induction refs as [|l refs IH]; intros σ; [done|].
  rewrite mapWhere_cons.
  destruct (σ !! l) as [r|]; [destruct (decide (P r))|]; cbn [fst]; try apply IH.
  etrans; [apply (alloc_extends σ (f r)) | apply IH].
Qed.

(** An operation on the registry never writes to an object that exists: the
    store only grows. *)
Lemma mutate_extends mu (σ : Store) refs : σ ⊆ (Alias.mutateRefs mu σ refs).1.
Proof.
  destruct mu; cbn [Alias.mutateRefs]; try done; try apply mapWhere_extends.
  pose proof (alloc_extends σ newResponse). by destruct (alloc σ newResponse).
Qed.

Lemma mutateAll_extends mus (σ : Store) refs : σ ⊆ (mutateAll mus σ refs).1.
Proof.
  revert σ refs. induction mus as [|mu mus IH]; intros σ refs; [done|].
  cbn [mutateAll].
  pose proof (mutate_extends mu σ refs) as H1.
  destruct (Alias.mutateRefs mu σ refs) as [σ1 refs1]. cbn [fst] in H1.
  etrans; [exact H1 | apply IH].
Qed.

Lemma filterWhere_allocated P `{!forall r, Decision (P r)} (σ : Store) refs :
  allocated σ (filterWhere P σ refs).
Proof.
  unfold allocated, filterWhere. apply Forall_forall. intros l Hl.
  apply list_elem_of_In, filter_In in Hl as [_ Hl].
  by destruct (σ !! l).
Qed.

Lemma filterWhere_values P `{!forall r, Decision (P r)} (σ : Store) refs :
  allocated σ refs ->
  values σ (filterWhere P σ refs) = filter P (values σ refs).
Proof.
  induction 1 as [|l refs [v Hv] _ IH]; [done|].
  rewrite values_cons, Hv, filter_cons.
  unfold filterWhere in *. cbn [List.filter]. rewrite Hv.
  destruct (decide (P v)) as [HP|HP].
  - rewrite bool_decide_eq_true_2 by done. rewrite values_cons, Hv. by rewrite IH.
  - rewrite bool_decide_eq_false_2 by done. apply IH.
Qed.

Lemma mapWhere_values P `{!forall r, Decision (P r)} f (σ : Store) refs :
  allocated σ refs ->
  values (mapWhere P f σ refs).1 (mapWhere P f σ refs).2
  = List.map (fun r => if decide (P r) then f r else r) (values σ refs)
  /\ allocated (mapWhere P f σ refs).1 (mapWhere P f σ refs).2.
Proof.
  revert σ. induction refs as [|l refs IH]; intros σ Hall.
  { split; [done | constructor]. }
  apply Forall_cons in Hall as [[r Hr] Hall].
  rewrite mapWhere_cons, (values_cons σ), Hr. cbn [List.map].
  destruct (decide (P r)) as [HP|HP]; cbn [fst snd].
  - pose proof (alloc_extends σ (f r)) as Ha.
    pose proof (alloc_lookup σ (f r)) as Hl.
    set (σ1 := (alloc σ (f r)).2) in *.
    destruct (IH σ1 (allocated_mono _ _ _ Ha Hall)) as [Hv Ho].
    pose proof (mapWhere_extends P f σ1 refs) as H2.
    split.
    + rewrite values_cons, (lookup_weaken _ _ _ _ Hl H2), Hv.
      do 2 f_equal. by apply (values_mono σ σ1).
    + constructor; [|done]. exists (f r). by eapply lookup_weaken.
  - destruct (IH σ Hall) as [Hv Ho].
    pose proof (mapWhere_extends P f σ refs) as H2.
    split.
    + by rewrite values_cons, (lookup_weaken _ _ _ _ Hr H2), Hv.
    + constructor; [|done]. exists r. by eapply lookup_weaken.
Qed.

(** The store model agrees with the list model: reading the array after an
    operation on references gives the list the operation on values gives. *)
Lemma mutate_simulates mu (σ : Store) refs :
  allocated σ refs ->
  values (Alias.mutateRefs mu σ refs).1 (Alias.mutateRefs mu σ refs).2 = mutate mu (values σ refs)
  /\ allocated (Alias.mutateRefs mu σ refs).1 (Alias.mutateRefs mu σ refs).2.
Proof.
  intros Hall. destruct mu; cbn [Alias.mutateRefs mutate].
  - pose proof (alloc_extends σ newResponse) as Ha.
    pose proof (alloc_lookup σ newResponse) as Hl.
    destruct (alloc σ newResponse) as [l σ1]. cbn [fst snd] in *. split.
    + unfold values. rewrite omap_app. cbn [omap list_omap]. rewrite Hl.
      f_equal. by apply (values_mono σ σ1).
    + apply Forall_app. split; [by eapply allocated_mono|].
      constructor; [by exists newResponse | constructor].
  - by apply (mapWhere_values (fun r => CanvasResponse.id r = id)).
  - split; [by apply filterWhere_values | apply filterWhere_allocated].
  - split; [done | constructor].
  - by apply (mapWhere_values
                (fun r => CanvasResponse.provider r = provider
                          /\ CanvasResponse.status r = CanvasResponse.loading)).
  - by apply (mapWhere_values
                (fun r => CanvasResponse.provider r = provider
                          /\ CanvasResponse.status r = CanvasResponse.loading)).
Qed.

End AliasFacts.

(** C8.  The [responses] array of a timeline entry holds the references
    that passed the filter when the entry was recorded.  Whatever sequence
    of registry operations follows (adding, updating, removing, clearing,
    settling a call), the objects those references denote are the same
    values as before.  And in the list model none of the registry
    operations changes the timeline. *)
Theorem snapshot_survives_registry_mutations :
  (forall (σ : gmap positive CanvasResponse.t) captured providers prompt mus refs,
     let snap := Alias.snapshot σ captured providers prompt in
     Alias.values (Alias.mutateAll mus σ refs).1 snap = Alias.values σ snap)
  /\ (forall m,
      (forall id updates, timeline (exec (updateResponse id updates) m) = timeline m)
      /\ (forall id, timeline (exec (removeResponse id) m) = timeline m)
      /\ timeline (exec clearResponses m) = timeline m
      /\ (forall f, timeline (exec (setResponses f) m) = timeline m)).
Proof.
  split.
  - intros σ captured providers prompt mus refs snap.
    apply values_mono; [apply mutateAll_extends|].
    apply filterWhere_allocated.
  - intros m. repeat split.
Qed.


(** * Further properties of the registries *)

Section StaleIds.

Variable nanoid_at : nat -> string.

Lemma map_id_where {A} (P : A -> Prop) `{!forall x, Decision (P x)} (f : A -> A) (l : list A) :
  Forall (fun x => ~ P x) l ->
  List.map (fun x => if decide (P x) then f x else x) l = l.
Proof.
  induction 1 as [|x l Hx _ IH]; [done|].
  cbn [List.map]. by rewrite IH, decide_False.
Qed.

Lemma filter_all {A} (P : A -> Prop) `{!forall x, Decision (P x)} (l : list A) :
  Forall P l -> filter P l = l.
Proof.
  induction 1 as [|x l Hx _ IH]; [done|].
  by rewrite filter_cons_True, IH.
Qed.

(** X1.  An update or a removal aimed at an id that no node of the registry
    has leaves the whole machine as it was. *)
Theorem stale_response_id_is_tolerated id updates m :
  Forall (fun r => CanvasResponse.id r <> id) (responses m) ->
  exec (updateResponse id updates) m = m /\ exec (removeResponse id) m = m.
Proof.
  intros H. destruct m as [rs tl ls t d]. unfold exec. simpl in *. split; f_equal.
  - apply (map_id_where (fun r => CanvasResponse.id r = id)). exact H.
  - by apply filter_all.
Qed.

Lemma stale_response_id_is_tolerated_witness :
  exec (updateResponse "node-9"
          (CanvasResponse.mkPartial None None None (Some "late") None
             (Some CanvasResponse.error))) Sample.linked = Sample.linked
  /\ exec (removeResponse "node-9") Sample.linked = Sample.linked.
Proof.
  apply stale_response_id_is_tolerated. repeat constructor; discriminate.
Defined.

(** X2.  [updateCorrectionLink] with a new status and a feedback text
    rewrites, at each position, a link that has the given id into the same
    link with that status and that feedback, every other field kept, and
    passes a link with another id on as it is. *)
Theorem updateCorrectionLink_sets_status_and_feedback id status feedback m k l :
  correctionLinks m !! k = Some l ->
  correctionLinks
    (exec (updateCorrectionLink id
             (CorrectionLink.mkPartial None None None None None None
                (Some status) (Some feedback) None)) m) !! k =
  Some (if decide (CorrectionLink.id l = id)
        then CorrectionLink.mk (CorrectionLink.id l) (CorrectionLink.sourceNodeId l)
               (CorrectionLink.sourceProvider l) (CorrectionLink.targetNodeId l)
               (CorrectionLink.targetProvider l) (CorrectionLink.correctionType l)
               status (Some feedback) (CorrectionLink.timestamp l)
        else l).
Proof.
  intros Hk. unfold exec. simpl.
  change (List.map ?f ?x) with (f <$> x).
  rewrite list_lookup_fmap, Hk. simpl. by case_decide.
Qed.

Lemma updateCorrectionLink_sets_status_and_feedback_witness :
  correctionLinks
    (exec (updateCorrectionLink "node-2"
             (CorrectionLink.mkPartial None None None None None None
                (Some CorrectionLink.completed) (Some "looks good") None))
          Sample.linked) !! 0 =
  Some (CorrectionLink.mk "node-2" "node-0" "deepseek" "node-1" "openai"
          CorrectionLink.code_review CorrectionLink.completed (Some "looks good") 20).
Proof.
  apply (updateCorrectionLink_sets_status_and_feedback "node-2" CorrectionLink.completed
           "looks good" Sample.linked 0 Sample.linkAB).
  reflexivity.
Defined.

Lemma filter_app_new {A} (P : A -> Prop) `{!forall x, Decision (P x)} (l : list A) x :
  Forall P l -> ~ P x -> filter P (l ++ [x]) = l.
Proof.
  intros Hl Hx. rewrite filter_app, filter_all by done.
  rewrite filter_cons_False by done. by rewrite filter_nil, app_nil_r.
Qed.

(** X3.  When the identifier [nanoid()] hands out next is not yet in use in
    a collection, adding an entity and then removing it by its new id gives
    the collection back as it was: the response registry, the timeline and
    the correction links alike. *)
Theorem add_then_remove_restores response entry link m :
  Forall (fun r => CanvasResponse.id r <> nanoid_at (drawn m)) (responses m) ->
  Forall (fun e => TimelineEntry.id e <> nanoid_at (drawn m)) (timeline m) ->
  Forall (fun l => CorrectionLink.id l <> nanoid_at (drawn m)) (correctionLinks m) ->
  responses (exec (removeResponse (nanoid_at (drawn m)))
               (exec (addResponse nanoid_at response) m)) = responses m
  /\ timeline (exec (removeTimelineEntry (nanoid_at (drawn m)))
                 (exec (addTimelineEntry nanoid_at entry) m)) = timeline m
  /\ correctionLinks (exec (removeCorrectionLink (nanoid_at (drawn m)))
                        (exec (addCorrectionLink nanoid_at link) m)) = correctionLinks m.
Proof.
  intros Hr He Hl. unfold exec.
  rewrite addResponse_run, addTimelineEntry_run, addCorrectionLink_run. simpl.
  split; [|split].
  - apply filter_app_new; [done|]. simpl. by intros H.
  - rewrite filter_cons_False by (simpl; by intros H). by apply filter_all.
  - apply filter_app_new; [done|]. simpl. by intros H.
Qed.

End StaleIds.

Lemma add_then_remove_restores_witness :
  responses (exec (removeResponse "node-3")
               (exec (addResponse Sample.nanoid_at
                        (CanvasResponse.literal qwen "hello" "" CanvasResponse.loading))
                     Sample.linked)) = responses Sample.linked
  /\ timeline (exec (removeTimelineEntry "node-3")
                 (exec (addTimelineEntry Sample.nanoid_at
                          (TimelineEntry.literal "hello" [qwen] [] []))
                       Sample.linked)) = timeline Sample.linked
  /\ correctionLinks (exec (removeCorrectionLink "node-3")
                        (exec (addCorrectionLink Sample.nanoid_at
                                 (CorrectionLink.Input.mk None None "node-1" "openai" "node-0"
                                    "deepseek" CorrectionLink.fact_check
                                    CorrectionLink.pending None))
                              Sample.linked)) = correctionLinks Sample.linked.
Proof.
  apply (add_then_remove_restores Sample.nanoid_at _ _ _ Sample.linked);
    repeat constructor; discriminate.
Defined.

(** * Further properties of the fan-out *)

Section Completions.

Lemma settleAll_nil_calls providers rs : settleAll providers [] rs = rs.
Proof. by destruct providers. Qed.

(** X4.  A node that has settled, as success or as error, is never changed
    again by the completions of a batch, whichever providers they are for
    and however they end: it keeps its place, its status and its text. *)
Theorem settled_node_is_final providers calls rs k r :
  rs !! k = Some r ->
  CanvasResponse.status r <> CanvasResponse.loading ->
  settleAll providers calls rs !! k = Some r.
Proof.
  revert calls rs. induction providers as [|p ps IH]; intros calls rs Hk Hs; [done|].
  destruct calls as [|c calls]; [done|]. simpl. apply IH; [|done].
  apply outcome_lookup; [done|]. by intros [_ ?].
Qed.

Lemma settled_node_is_final_witness :
  settleAll [openai; deepseek] [mkCall 1000 true; mkCall 1100 false]
    [Sample.nodeA; Sample.nodeB] !! 1 = Some Sample.nodeB.
Proof.
  apply (settled_node_is_final [openai; deepseek] _ [Sample.nodeA; Sample.nodeB] 1 Sample.nodeB).
  - reflexivity.
  - discriminate.
Defined.

Lemma outcome_no_pending provider call rs :
  Forall (fun r => ~ pendingFor provider r) (outcome provider call rs).
Proof.
  rewrite outcome_map. induction rs as [|r rs IH]; cbn [List.map]; constructor; [|done].
  unfold pendingFor. case_decide as H; [|done]. simpl. intros [_ Hs].
  by destruct (throws call).
Qed.

(** X5.  For one provider the first completion wins: a second completion
    for the same provider, with whatever outcome, changes nothing, since no
    loading node of that provider is left. *)
Theorem first_completion_wins provider call1 call2 rs :
  outcome provider call2 (outcome provider call1 rs) = outcome provider call1 rs.
Proof. apply outcome_discarded. apply outcome_no_pending. Qed.

(** X6.  Completions for two different providers commute: the registry is
    the same whichever of the two is applied first. *)
Theorem completions_commute p q callp callq rs :
  p <> q ->
  outcome p callp (outcome q callq rs) = outcome q callq (outcome p callp rs).
Proof.
  intros Hpq. rewrite !outcome_map.
  induction rs as [|r rs IH]; [done|]. cbn [List.map]. f_equal; [|exact IH].
  repeat case_decide; simpl in *; try done; exfalso;
    destruct (throws callp), (throws callq); intuition congruence.
Qed.

Lemma completions_commute_witness :
  outcome openai (mkCall 1000 false)
    (outcome gemini (mkCall 1200 true)
       (placeholders Sample.nanoid_at "ping" [openai; gemini] 0 0)) =
  outcome gemini (mkCall 1200 true)
    (outcome openai (mkCall 1000 false)
       (placeholders Sample.nanoid_at "ping" [openai; gemini] 0 0)).
Proof. apply completions_commute. discriminate. Defined.

Lemma outcome_preserves (Q : CanvasResponse.t -> Prop) provider call rs :
  (forall r text s, s <> CanvasResponse.loading -> Q r -> Q (CanvasResponse.settle r text s)) ->
  Forall Q rs -> Forall Q (outcome provider call rs).
Proof.
  intros HQ. rewrite outcome_map.
  induction 1 as [|r rs Hr _ IH]; cbn [List.map]; constructor; [|done].
  case_decide; [|done]. apply HQ; [|done]. by destruct (throws call).
Qed.

Lemma settleAll_preserves (Q : CanvasResponse.t -> Prop) providers calls rs :
  (forall r text s, s <> CanvasResponse.loading -> Q r -> Q (CanvasResponse.settle r text s)) ->
  Forall Q rs -> Forall Q (settleAll providers calls rs).
Proof.
  intros HQ. revert calls rs.
  induction providers as [|p ps IH]; intros calls rs Hrs; [done|].
  destruct calls as [|c calls]; [done|]. simpl. apply IH. by apply outcome_preserves.
Qed.

Lemma settleAll_length providers calls rs :
  length (settleAll providers calls rs) = length rs.
Proof.
  revert calls rs. induction providers as [|p ps IH]; intros calls rs; [done|].
  destruct calls as [|c calls]; [done|]. simpl. rewrite IH, outcome_map.
  apply length_map.
Qed.

Lemma settleAll_settles providers calls rs :
  length calls = length providers ->
  Forall (fun r => CanvasResponse.provider r ∈ providers ->
                   CanvasResponse.status r <> CanvasResponse.loading)
    (settleAll providers calls rs).
Proof.
  revert calls rs. induction providers as [|p ps IH]; intros calls rs Hlen.
  - apply Forall_forall. intros r _ H. by apply elem_of_nil in H.
  - destruct calls as [|c calls]; [done|]. injection Hlen as Hlen. simpl.
    pose proof (IH calls (outcome p c rs) Hlen) as Hps.
    assert (Forall (fun r => CanvasResponse.provider r = p ->
                             CanvasResponse.status r <> CanvasResponse.loading)
              (settleAll ps calls (outcome p c rs))) as Hp.
    { apply settleAll_preserves; [by intros r text s Hs _ _|].
      eapply Forall_impl; [apply outcome_no_pending|].
      unfold pendingFor. simpl. tauto. }
    rewrite Forall_forall in Hps, Hp. apply Forall_forall. intros r Hr Hin.
    apply elem_of_cons in Hin as [Heq|Hin]; [by apply Hp | by apply Hps].
Qed.

End Completions.

Section WholeBatch.

Variable nanoid_at : nat -> string.

(** X7.  When every call of a batch has settled, no node of the registry
    whose provider is in the batch is still loading (the placeholders of
    the batch among them), the registry has grown by exactly one node per
    provider, one entry has been added to the timeline, and the correction
    links are as before. *)
Theorem finished_batch_leaves_nothing_loading prompt providers calls m :
  length calls = length providers ->
  let m' := exec (sendPromptToMultipleModels nanoid_at prompt providers calls) m in
  Forall (fun r => CanvasResponse.provider r ∈ providers ->
                   CanvasResponse.status r <> CanvasResponse.loading) (responses m')
  /\ length (responses m') = length (responses m) + length providers
  /\ length (timeline m') = S (length (timeline m))
  /\ correctionLinks m' = correctionLinks m.
Proof.
  intros Hlen. unfold exec. rewrite sendPromptToMultipleModels_run by done. simpl.
  split; [by apply settleAll_settles|].
  by rewrite settleAll_length, length_app, placeholders_length.
Qed.

(** X8.  [handleSendPrompt] with a prompt that is empty or white space
    only, or with no provider selected, shows an error and changes nothing:
    no node, no timeline entry, no identifier drawn. *)
Theorem handleSendPrompt_rejects prompt selectedProviders m :
  JsString.allWhiteSpace prompt = true \/ selectedProviders = [] ->
  exists message,
    Home.handleSendPrompt nanoid_at prompt selectedProviders m
    = (inl (toast_error message), m).
Proof.
  intros H. rewrite handleSendPrompt_run.
  destruct (decide (JsString.trim prompt = "")) as [|Hne]; [by eexists|].
  destruct H as [H| ->]; [by apply trim_empty in H|].
  by eexists.
Qed.

(** X9.  As long as fewer calls have settled than providers were asked,
    the function has not returned and nothing has been added to the
    timeline: the entry of a batch is recorded after its last call. *)
Theorem timeline_waits_for_last_call prompt providers calls m :
  length calls < length providers ->
  let '(t, m') := sendPromptToMultipleModels nanoid_at prompt providers calls m in
  t <> Returned /\ timeline m' = timeline m.
Proof.
  intros Hlen. unfold sendPromptToMultipleModels, mbind, M_bind.
  rewrite start_run. simpl.
  destruct providers as [|p rest]; [simpl in Hlen; lia|].
  simpl iterate. unfold mret, M_ret.
  destruct calls as [|call calls]; [done|].
  simpl in Hlen.
  assert (length calls < length rest) as Hk by lia.
  destruct (lookup_lt_is_Some_2 rest (length calls) Hk) as [q Hq].
  rewrite <- (take_drop_middle rest (length calls) q Hq).
  rewrite resumeAll_partial.
  - done.
  - simpl. rewrite length_take. f_equal. lia.
Qed.

End WholeBatch.

Lemma finished_batch_leaves_nothing_loading_witness :
  let m' := exec (sendPromptToMultipleModels Sample.nanoid_at "second question"
                    [openai; gemini] Sample.slowThenFast) Sample.overlapping in
  Forall (fun r => CanvasResponse.provider r ∈ [openai; gemini] ->
                   CanvasResponse.status r <> CanvasResponse.loading) (responses m')
  /\ length (responses m') = length (responses Sample.overlapping) + 2
  /\ length (timeline m') = S (length (timeline Sample.overlapping))
  /\ correctionLinks m' = correctionLinks Sample.overlapping.
Proof.
  apply (finished_batch_leaves_nothing_loading Sample.nanoid_at "second question"
           [openai; gemini] Sample.slowThenFast Sample.overlapping).
  reflexivity.
Defined.

Lemma handleSendPrompt_rejects_witness :
  exists message,
    Home.handleSendPrompt Sample.nanoid_at "   " [openai] Sample.linked
    = (inl (toast_error message), Sample.linked).
Proof.
  apply handleSendPrompt_rejects. left. reflexivity.
Defined.

Lemma timeline_waits_for_last_call_witness :
  let '(t, m') :=
    sendPromptToMultipleModels Sample.nanoid_at "ping" [openai; gemini; qwen]
      Sample.slowThenFast Sample.empty in
  t <> Returned /\ timeline m' = timeline Sample.empty.
Proof.
  apply (timeline_waits_for_last_call Sample.nanoid_at "ping" [openai; gemini; qwen]
           Sample.slowThenFast Sample.empty).
  simpl. lia.
Defined.


(** * Further properties of the timeline view *)

Section SearchFacts.

Import JsString SemanticTimeline.

Lemma toLowerCase_empty q : toLowerCase q = "" <-> q = "".
Proof. by destruct q. Qed.

Lemma append_empty_r (s : string) : s +:+ "" = s.
Proof.
  induction s as [|c s IH]; [done|].
  change (String c (s +:+ "") = String c s). by f_equal.
Qed.

Lemma ci_substring_whole q s : toLowerCase q = toLowerCase s -> ci_substring q s.
Proof. intros H. exists "", s, "". by rewrite append_empty_r. Qed.

Lemma elem_of_filteredEntries entries query tag e :
  e ∈ filteredEntries entries query tag <-> e ∈ entries /\ search_matches query tag e.
Proof.
  unfold filteredEntries. rewrite !list_elem_of_In, filter_In.
  by rewrite search_matches_spec.
Qed.

Lemma matchesSearch_lower q q' e :
  toLowerCase q = toLowerCase q' -> matchesSearch q e = matchesSearch q' e.
Proof.
  intros H. unfold matchesSearch. rewrite H. do 3 f_equal.
  apply bool_decide_ext.
  by rewrite <- (toLowerCase_empty q), <- (toLowerCase_empty q'), H.
Qed.

(** X10.  The search does not depend on the letter case of the query: two
    queries that are equal up to case return the same entries. *)
Theorem search_ignores_case_of_query entries q q' tag :
  toLowerCase q = toLowerCase q' ->
  filteredEntries entries q tag = filteredEntries entries q' tag.
Proof.
  intros H. unfold filteredEntries.
  induction entries as [|e es IH]; [done|].
  cbn [List.filter]. by rewrite IH, (matchesSearch_lower q q' e H).
Qed.

Lemma filter_filter_andb {A} (f g : A -> bool) (l : list A) :
  List.filter f (List.filter g l) = List.filter (fun x => g x && f x) l.
Proof.
  induction l as [|x l IH]; [done|]. cbn [List.filter].
  destruct (g x); cbn [List.filter andb]; [|done]. by rewrite IH.
Qed.

Lemma matchesSearch_empty e : matchesSearch "" e = true.
Proof. apply matchesSearch_spec. by left. Qed.

(** X11.  Searching by text and filtering by tag can be done one after the
    other, in either order, with the result of doing both at once. *)
Theorem search_and_tag_compose entries query tag :
  filteredEntries (filteredEntries entries query None) "" tag
    = filteredEntries entries query tag
  /\ filteredEntries (filteredEntries entries "" tag) query None
    = filteredEntries entries query tag.
Proof.
  unfold filteredEntries. rewrite !filter_filter_andb. split.
  - apply filter_ext. intros e. rewrite matchesSearch_empty. simpl.
    by rewrite andb_true_r.
  - apply filter_ext. intros e. rewrite matchesSearch_empty. simpl.
    rewrite andb_true_r. apply andb_comm.
Qed.

(** X12.  Typing the whole prompt of an entry, one of its tags or the name
    of one of its providers, in any letter case, with no tag selected,
    finds the entry. *)
Theorem search_finds_by_prompt_tag_or_provider entries e q :
  e ∈ entries ->
  toLowerCase q = toLowerCase (TimelineEntry.prompt e)
  \/ (exists t, t ∈ TimelineEntry.tags e /\ toLowerCase q = toLowerCase t)
  \/ (exists p, p ∈ TimelineEntry.providers e
                /\ toLowerCase q = toLowerCase (ModelProvider_str p)) ->
  e ∈ filteredEntries entries q None.
Proof.
  intros He H. apply elem_of_filteredEntries. split; [done|].
  split; [|by left]. right.
  destruct H as [H|[(t & Ht & H)|(p & Hp & H)]].
  - left. by apply ci_substring_whole.
  - right. left. exists t. split; [done|]. by apply ci_substring_whole.
  - right. right. exists p. split; [done|]. by apply ci_substring_whole.
Qed.

Lemma elem_of_setAdd tags t x : x ∈ setAdd tags t <-> x ∈ tags \/ x = t.
Proof.
  unfold setAdd. case_decide as H.
  - split; [by left|]. intros [?| ->]; done.
  - rewrite elem_of_app, list_elem_of_singleton. done.
Qed.

Lemma NoDup_setAdd tags t : NoDup tags -> NoDup (setAdd tags t).
Proof.
  intros H. unfold setAdd. case_decide as Hin; [done|].
  apply NoDup_app. split; [done|]. split; [|apply NoDup_singleton].
  intros x Hx Hx'. apply list_elem_of_singleton in Hx'. by subst.
Qed.

Lemma fold_setAdd new tags :
  (NoDup tags -> NoDup (fold_left setAdd new tags))
  /\ (forall x, x ∈ fold_left setAdd new tags <-> x ∈ tags \/ x ∈ new).
Proof.
  revert tags. induction new as [|t new IH]; intros tags; simpl.
  - split; [done|]. intros x. rewrite elem_of_nil. tauto.
  - destruct (IH (setAdd tags t)) as [IH1 IH2]. split.
    + intros H. by apply IH1, NoDup_setAdd.
    + intros x. rewrite IH2, elem_of_setAdd, elem_of_cons. tauto.
Qed.

Lemma fold_allTags entries tags :
  (NoDup tags ->
   NoDup (fold_left (fun acc entry => fold_left setAdd (TimelineEntry.tags entry) acc)
            entries tags))
  /\ (forall x,
       x ∈ fold_left (fun acc entry => fold_left setAdd (TimelineEntry.tags entry) acc)
             entries tags
       <-> x ∈ tags \/ exists e, e ∈ entries /\ x ∈ TimelineEntry.tags e).
Proof.
  revert tags. induction entries as [|e es IH]; intros tags; simpl.
  - split; [done|]. intros x. split; [by left|].
    intros [?|(e & He & _)]; [done|]. by apply elem_of_nil in He.
  - destruct (IH (fold_left setAdd (TimelineEntry.tags e) tags)) as [IH1 IH2].
    destruct (fold_setAdd (TimelineEntry.tags e) tags) as [F1 F2]. split.
    + intros H. by apply IH1, F1.
    + intros x. rewrite IH2, F2. split.
      * intros [[?|?]|(e' & He' & Hx)]; [by left| |].
        -- right. exists e. split; [left|done].
        -- right. exists e'. split; [by right|done].
      * intros [?|(e' & He' & Hx)]; [by left; left|].
        apply elem_of_cons in He' as [->|He']; [by left; right|].
        right. by exists e'.
Qed.

(** X13.  [allTags] lists every tag exactly once, and lists exactly the
    tags that some entry of the ledger carries. *)
Theorem allTags_is_the_set_of_tags entries :
  NoDup (allTags entries)
  /\ forall t, t ∈ allTags entries <-> exists e, e ∈ entries /\ t ∈ TimelineEntry.tags e.
Proof.
  unfold allTags. destruct (fold_allTags entries []) as [H1 H2]. split.
  - apply H1. constructor.
  - intros t. rewrite H2. split; [|by right].
    intros [H|H]; [by apply elem_of_nil in H | done].
Qed.

(** X14.  Every tag chip the view offers selects something: with the empty
    query, filtering by a tag of [allTags] never gives the empty list. *)
Theorem offered_tag_selects_an_entry entries t :
  t ∈ allTags entries -> filteredEntries entries "" (Some t) <> [].
Proof.
  intros Ht. unfold allTags in Ht.
  apply (proj2 (fold_allTags entries [])) in Ht as [Ht|(e & He & Hte)];
    [by apply elem_of_nil in Ht|].
  assert (e ∈ filteredEntries entries "" (Some t)) as Hin.
  { apply elem_of_filteredEntries. split; [done|]. split; [by left|].
    right. by exists t. }
  intros Heq. rewrite Heq in Hin. by apply elem_of_nil in Hin.
Qed.

(** X15.  The time label: anything younger than a minute, a time stamp in
    the future included, reads "Just now"; from one minute up to an hour the
    label is a whole number of minutes between 1 and 59; from one hour up
    to a day a whole number of hours between 1 and 23; from a day on it is
    the date. *)
Theorem formatTime_labels toLocaleDateString Date_now timestamp :
  let diff := (Date_now - timestamp)%Z in
  let label := formatTime toLocaleDateString Date_now timestamp in
  ((diff < 60000)%Z -> label = "Just now")
  /\ ((60000 <= diff < 3600000)%Z ->
      exists n, (1 <= n <= 59)%Z /\ label = pretty n +:+ "m ago")
  /\ ((3600000 <= diff < 86400000)%Z ->
      exists n, (1 <= n <= 23)%Z /\ label = pretty n +:+ "h ago")
  /\ ((86400000 <= diff)%Z -> label = toLocaleDateString timestamp).
Proof.
  intros diff label. unfold label, formatTime. fold diff.
  repeat split; intros H; repeat case_decide; try lia; try done.
  - exists (diff / 60000)%Z. split; [|done]. split.
    + apply Z.div_le_lower_bound; lia.
    + assert (diff / 60000 < 60)%Z by (apply Z.div_lt_upper_bound; lia). lia.
  - exists (diff / 3600000)%Z. split; [|done]. split.
    + apply Z.div_le_lower_bound; lia.
    + assert (diff / 3600000 < 24)%Z by (apply Z.div_lt_upper_bound; lia). lia.
Qed.

End SearchFacts.

Lemma search_ignores_case_of_query_witness :
  SemanticTimeline.filteredEntries Demo.ledger "RUST" (Some "code")
  = SemanticTimeline.filteredEntries Demo.ledger "rust" (Some "code").
Proof. apply search_ignores_case_of_query. reflexivity. Defined.

Lemma search_finds_by_prompt_tag_or_provider_witness :
  Demo.entryA ∈ SemanticTimeline.filteredEntries Demo.ledger "DeepSeek" None.
Proof.
  apply search_finds_by_prompt_tag_or_provider.
  - apply list_elem_of_here.
  - right. right. exists deepseek. split; [|reflexivity].
    apply list_elem_of_further, list_elem_of_here.
Defined.

Lemma offered_tag_selects_an_entry_witness :
  SemanticTimeline.filteredEntries Demo.ledger "" (Some "facts") <> [].
Proof.
  apply offered_tag_selects_an_entry. vm_compute.
  apply list_elem_of_further, list_elem_of_further, list_elem_of_here.
Defined.

Lemma formatTime_labels_witness :
  (exists n, (1 <= n <= 59)%Z
     /\ SemanticTimeline.formatTime (fun _ => "1/1/2026") 400000 100000 = pretty n +:+ "m ago")
  /\ SemanticTimeline.formatTime (fun _ => "1/1/2026") 100000 400000 = "Just now".
Proof.
  split.
  - apply (proj1 (proj2 (formatTime_labels (fun _ => "1/1/2026") 400000 100000))). lia.
  - apply (proj1 (formatTime_labels (fun _ => "1/1/2026") 100000 400000)). lia.
Defined.

(** * Properties of the canvas component *)

Section CanvasFacts.

Import InfiniteCanvas.

(** X16.  [deleteNode] keeps the canvas well formed: if every edge joined
    two nodes of the canvas before, it does so afterwards; and the deleted
    id is then neither among the nodes nor among the responses. *)
Theorem deleteNode_keeps_canvas_well_formed nodeId st :
  wellFormed st ->
  let st' := deleteNode nodeId st in
  wellFormed st'
  /\ (nodeId ∉ nodes st')
  /\ Forall (fun r => CanvasResponse.id r <> nodeId) (responses st').
Proof.
  intros Hwf st'. unfold wellFormed in *. simpl. split; [|split].
  - apply Forall_forall. intros e He.
    apply list_elem_of_filter in He as [[Hs Ht] He].
    rewrite Forall_forall in Hwf. destruct (Hwf e He) as [Hsn Htn].
    by rewrite !list_elem_of_filter.
  - rewrite list_elem_of_filter. by intros [? _].
  - apply Forall_forall. intros r Hr. by apply list_elem_of_filter in Hr as [? _].
Qed.

(** X17.  Putting a response on a well-formed canvas under an id that is
    not in use and deleting that node again gives the canvas back as it
    was: nodes, edges and responses. *)
Theorem addResponseNode_then_deleteNode response st :
  wellFormed st ->
  CanvasResponse.id response ∉ nodes st ->
  Forall (fun r => CanvasResponse.id r <> CanvasResponse.id response) (responses st) ->
  deleteNode (CanvasResponse.id response) (addResponseNode response st) = st.
Proof.
  intros Hwf Hn Hr. destruct st as [ns es rs]. unfold deleteNode, wellFormed in *.
  simpl in *. f_equal.
  - apply filter_app_new; [|by intros H].
    apply Forall_forall. intros n Hin ->. done.
  - apply filter_all. eapply Forall_impl; [exact Hwf|].
    intros e [Hs Ht]. simpl. split; intros Heq; apply Hn; by rewrite <- Heq.
  - apply filter_app_new; [done|]. by intros H.
Qed.

End CanvasFacts.

Lemma deleteNode_keeps_canvas_well_formed_witness :
  let st' := InfiniteCanvas.deleteNode "node-0" Demo.canvas in
  InfiniteCanvas.wellFormed st'
  /\ ("node-0" ∉ InfiniteCanvas.nodes st')
  /\ Forall (fun r => CanvasResponse.id r <> "node-0") (InfiniteCanvas.responses st').
Proof.
  apply deleteNode_keeps_canvas_well_formed.
  repeat constructor.
Defined.

Lemma addResponseNode_then_deleteNode_witness :
  InfiniteCanvas.deleteNode "node-5" (InfiniteCanvas.addResponseNode Demo.nodeC Demo.canvas)
  = Demo.canvas.
Proof.
  apply (addResponseNode_then_deleteNode Demo.nodeC Demo.canvas).
  - repeat constructor.
  - intros H. repeat (apply elem_of_cons in H as [H|H]; [discriminate H|]).
    by apply elem_of_nil in H.
  - repeat constructor; discriminate.
Defined.

(** * Properties of the key storage *)

Section StorageFacts.

Import SecureStorage.

Lemma keyName_inj p q : keyName p = keyName q -> p = q.
Proof. destruct p, q; try done; discriminate. Qed.

(** X18.  On a storage that works, the key saved for a provider is the key
    read back for it, whatever was stored for that provider before, and the
    provider then counts as saved. *)
Theorem saveKey_then_getKey provider apiKey ls :
  denied ls = false -> full ls = false ->
  getKey provider (saveKey provider apiKey ls) = Some apiKey
  /\ hasKey provider (saveKey provider apiKey ls) = true
  /\ provider ∈ getSavedProviders (saveKey provider apiKey ls).
Proof.
  intros Hd Hf.
  assert (getKey provider (saveKey provider apiKey ls) = Some apiKey) as Hget.
  { unfold getKey, saveKey. rewrite Hd, Hf. simpl. apply lookup_insert_eq. }
  assert (hasKey provider (saveKey provider apiKey ls) = true) as Hhas.
  { unfold hasKey. by rewrite Hget. }
  split; [done|]. split; [done|].
  unfold getSavedProviders. apply list_elem_of_In, filter_In. split; [|done].
  apply list_elem_of_In. unfold providers. destruct provider; repeat constructor.
Qed.

(** X19.  Saving or deleting the key of one provider leaves what is read
    for every other provider as it was: the item names of two providers
    never coincide. *)
Theorem keys_of_other_providers_are_untouched p q apiKey ls :
  p <> q ->
  getKey q (saveKey p apiKey ls) = getKey q ls
  /\ getKey q (deleteKey p ls) = getKey q ls.
Proof.
  intros Hpq.
  assert (keyName p <> keyName q) as Hk by (intros H; by apply keyName_inj in H).
  unfold getKey, saveKey, deleteKey. split.
  - destruct (denied ls) eqn:Hd, (full ls) eqn:Hf; simpl; rewrite ?Hd; try done.
    by apply lookup_insert_ne.
  - destruct (denied ls) eqn:Hd; simpl; rewrite ?Hd; [done|]. by apply lookup_delete_ne.
Qed.

Lemma filter_sublist {A} (f : A -> bool) (l : list A) : sublist (List.filter f l) l.
Proof.
  induction l as [|x l IH]; [done|]. cbn [List.filter].
  destruct (f x); by constructor.
Qed.

(** X20.  [getSavedProviders] lists exactly the providers for which a key
    is stored, each once, in the fixed order openai, gemini, deepseek,
    qwen. *)
Theorem getSavedProviders_lists_the_stored ls :
  sublist (getSavedProviders ls) [openai; gemini; deepseek; qwen]
  /\ NoDup (getSavedProviders ls)
  /\ forall p, p ∈ getSavedProviders ls <-> hasKey p ls = true.
Proof.
  split; [apply filter_sublist|]. split.
  - apply (sublist_NoDup _ providers); [|apply filter_sublist].
    apply (bool_decide_unpack _). by compute.
  - intros p. unfold getSavedProviders. rewrite list_elem_of_In, filter_In.
    split; [by intros [_ ?]|]. intros H. split; [|done].
    apply list_elem_of_In. unfold providers. destruct p; repeat constructor.
Qed.

(** X21.  When the browser refuses access to the storage, saving and
    deleting change nothing, no key is read and no provider is listed; when
    only the quota is used up, saving changes nothing.  No exception leaves
    the module. *)
Theorem storage_failures_are_swallowed ls :
  (denied ls = true ->
     (forall p apiKey, saveKey p apiKey ls = ls)
     /\ (forall p, deleteKey p ls = ls)
     /\ (forall p, getKey p ls = None)
     /\ getSavedProviders ls = [])
  /\ (full ls = true -> forall p apiKey, saveKey p apiKey ls = ls).
Proof.
  split.
  - intros Hd. unfold saveKey, deleteKey, getSavedProviders, hasKey, getKey.
    rewrite Hd. done.
  - intros Hf p apiKey. unfold saveKey. rewrite Hf. by rewrite orb_true_r.
Qed.

End StorageFacts.

Lemma saveKey_then_getKey_witness :
  SecureStorage.getKey gemini (SecureStorage.saveKey gemini "g-456" Demo.browser) = Some "g-456"
  /\ SecureStorage.hasKey gemini (SecureStorage.saveKey gemini "g-456" Demo.browser) = true
  /\ gemini ∈ SecureStorage.getSavedProviders (SecureStorage.saveKey gemini "g-456" Demo.browser).
Proof. apply saveKey_then_getKey; reflexivity. Defined.

Lemma keys_of_other_providers_are_untouched_witness :
  SecureStorage.getKey gemini (SecureStorage.saveKey openai "sk-1" Demo.browser)
  = SecureStorage.getKey gemini Demo.browser
  /\ SecureStorage.getKey gemini (SecureStorage.deleteKey openai Demo.browser)
  = SecureStorage.getKey gemini Demo.browser.
Proof. apply keys_of_other_providers_are_untouched. discriminate. Defined.

Lemma storage_failures_are_swallowed_witness :
  (forall p apiKey, SecureStorage.saveKey p apiKey Demo.blocked = Demo.blocked)
  /\ (forall p, SecureStorage.deleteKey p Demo.blocked = Demo.blocked)
  /\ (forall p, SecureStorage.getKey p Demo.blocked = None)
  /\ SecureStorage.getSavedProviders Demo.blocked = [].
Proof. apply (proj1 (storage_failures_are_swallowed Demo.blocked)). reflexivity. Defined.


(** * Properties of key validation and of the vault *)

Section ValidationFacts.

Import ApiValidation.

Variable fetch : Request -> FetchResult.
Variable Date_now : Z.

Lemma validateAPIKey_nonblank provider apiKey :
  JsString.allWhiteSpace apiKey = false ->
  validateAPIKey fetch Date_now provider apiKey =
  match provider with
  | openai => validateOpenAIKey fetch Date_now apiKey
  | gemini => validateGeminiKey fetch Date_now apiKey
  | deepseek => validateDeepSeekKey fetch Date_now apiKey
  | qwen => validateQwenKey fetch Date_now apiKey
  end.
Proof.
  intros H. unfold validateAPIKey.
  assert (apiKey <> "") as H0 by (intros ->; done).
  assert (String.length (JsString.trim apiKey) <> 0) as H1.
  { rewrite length_zero, trim_empty. by rewrite H. }
  by rewrite (bool_decide_eq_false_2 _ H0), (bool_decide_eq_false_2 _ H1).
Qed.

Lemma validateAPIKey_blank provider apiKey :
  JsString.allWhiteSpace apiKey = true ->
  validateAPIKey fetch Date_now provider apiKey =
  (mkResult false "API key cannot be empty" provider Date_now, []).
Proof.
  intros H. unfold validateAPIKey. apply trim_empty in H. rewrite H. simpl.
  by rewrite orb_true_r.
Qed.

Lemma exchange_success provider request validated :
  success (exchange fetch Date_now provider request validated).1 = true
  <-> exists body, fetch request = fetch_response true body.
Proof.
  unfold exchange. simpl. destruct (fetch request) as [e|[] [e|m]]; simpl;
    split; try done; try (intros [body H]; discriminate H); eauto.
Qed.

(** X22.  For a key that has something other than white space, validation
    succeeds exactly when the provider answers the one request with an
    [ok] response; a rejected request, a refused key and an unreadable
    error body all give a failure. *)
Theorem validation_succeeds_iff_response_ok provider apiKey :
  JsString.allWhiteSpace apiKey = false ->
  exists request,
    (validateAPIKey fetch Date_now provider apiKey).2 = [request]
    /\ (success (validateAPIKey fetch Date_now provider apiKey).1 = true
        <-> exists body, fetch request = fetch_response true body).
Proof.
  intros H. rewrite validateAPIKey_nonblank by done.
  destruct provider; eexists; (split; [reflexivity | apply exchange_success]).
Qed.

(** X23.  Whatever the key and whatever the network does, the result
    carries the provider that was asked for and a message that is not the
    empty string. *)
Theorem validation_result_names_provider_and_reason provider apiKey :
  ApiValidation.provider (validateAPIKey fetch Date_now provider apiKey).1 = provider
  /\ message (validateAPIKey fetch Date_now provider apiKey).1 <> "".
Proof.
  destruct (JsString.allWhiteSpace apiKey) eqn:H.
  - by rewrite validateAPIKey_blank.
  - rewrite validateAPIKey_nonblank by done.
    destruct provider; unfold validateOpenAIKey, validateGeminiKey, validateDeepSeekKey,
      validateQwenKey, exchange; simpl;
      (destruct (fetch _) as [e|[] [e|[m|]]]; simpl; split; try done;
       case_decide; done).
Qed.

Lemma validateAPIKey_success_inv provider apiKey :
  success (validateAPIKey fetch Date_now provider apiKey).1 = true ->
  JsString.allWhiteSpace apiKey = false
  /\ exists request body, fetch request = fetch_response true body.
Proof.
  destruct (JsString.allWhiteSpace apiKey) eqn:H.
  - by rewrite validateAPIKey_blank.
  - rewrite validateAPIKey_nonblank by done. intros Hs. split; [done|].
    destruct provider; apply exchange_success in Hs as [body Hb]; eauto.
Qed.

Lemma validateAPIKey_accepted provider apiKey :
  JsString.allWhiteSpace apiKey = false ->
  (forall request, exists body, fetch request = fetch_response true body) ->
  success (validateAPIKey fetch Date_now provider apiKey).1 = true.
Proof.
  intros H Hok. rewrite validateAPIKey_nonblank by done.
  destruct provider; apply exchange_success; apply Hok.
Qed.

End ValidationFacts.

Lemma validation_succeeds_iff_response_ok_witness :
  exists request,
    (ApiValidation.validateAPIKey Demo.refusing 7 openai "sk-test").2 = [request]
    /\ (ApiValidation.success (ApiValidation.validateAPIKey Demo.refusing 7 openai "sk-test").1
        = true
        <-> exists body, Demo.refusing request = ApiValidation.fetch_response true body).
Proof. apply validation_succeeds_iff_response_ok. reflexivity. Defined.

Section StorageLemmas.

Import SecureStorage.

Lemma getKey_saveKey provider apiKey ls :
  denied ls = false -> full ls = false ->
  getKey provider (saveKey provider apiKey ls) = Some apiKey.
Proof.
  intros Hd Hf. unfold getKey, saveKey. rewrite Hd, Hf. simpl. apply lookup_insert_eq.
Qed.

Lemma getKey_saveKey_ne p q apiKey ls :
  p <> q -> getKey q (saveKey p apiKey ls) = getKey q ls.
Proof.
  intros Hpq.
  assert (keyName p <> keyName q) as Hk by (intros H; by apply keyName_inj in H).
  unfold getKey, saveKey.
  destruct (denied ls) eqn:Hd, (full ls) eqn:Hf; simpl; rewrite ?Hd; try done.
  by apply lookup_insert_ne.
Qed.



Lemma elem_of_getSavedProviders p ls : p ∈ getSavedProviders ls <-> hasKey p ls = true.
Proof.
  unfold getSavedProviders. rewrite list_elem_of_In, filter_In.
  split; [by intros [_ ?]|]. intros H. split; [|done].
  apply list_elem_of_In. unfold providers. destruct p; repeat constructor.
Qed.

End StorageLemmas.

Section VaultFacts.

Import ConnectionVault.

Variable fetch : ApiValidation.Request -> ApiValidation.FetchResult.
Variable Date_now : Z.

Lemma handleValidateAndSave_failure st ls :
  ApiValidation.success
    (ApiValidation.validateAPIKey fetch Date_now (selectedProvider st) (apiKey st)).1 = false ->
  handleValidateAndSave fetch Date_now st ls =
  let r := ApiValidation.validateAPIKey fetch Date_now (selectedProvider st) (apiKey st) in
  mkOutcome (notice_error "Validation failed" (Some (ApiValidation.message r.1)))
    (mkState (selectedProvider st) (apiKey st) (showKey st) false (Some r.1)
       (savedProviders st))
    ls r.2 false.
Proof.
  intros H. unfold handleValidateAndSave.
  destruct (ApiValidation.validateAPIKey _ _ _ _) as [result sent]. simpl in *.
  by rewrite H.
Qed.

Lemma handleValidateAndSave_success st ls :
  ApiValidation.success
    (ApiValidation.validateAPIKey fetch Date_now (selectedProvider st) (apiKey st)).1 = true ->
  handleValidateAndSave fetch Date_now st ls =
  let r := ApiValidation.validateAPIKey fetch Date_now (selectedProvider st) (apiKey st) in
  let ls' := SecureStorage.saveKey (selectedProvider st) (apiKey st) ls in
  mkOutcome
    (notice_success (upperName (selectedProvider st) +:+ " connected")
       (Some "API key saved securely"))
    (mkState (selectedProvider st) "" (showKey st) false (Some r.1)
       (SecureStorage.getSavedProviders ls'))
    ls' r.2 true.
Proof.
  intros H. unfold handleValidateAndSave.
  destruct (ApiValidation.validateAPIKey _ _ _ _) as [result sent]. simpl in *.
  by rewrite H.
Qed.

(** X24.  When the key in the field is empty or white space only, or when
    the provider accepts no request, [handleValidateAndSave] stores
    nothing: the storage and the list of saved providers are as before, the
    key stays in the field, the dialog stays open and the toast announces
    the failure; for a blank key no request has been sent either. *)
Theorem vault_stores_nothing_when_validation_fails st ls :
  JsString.allWhiteSpace (apiKey st) = true
  \/ (forall request body, fetch request <> ApiValidation.fetch_response true body) ->
  let out := handleValidateAndSave fetch Date_now st ls in
  storage out = ls
  /\ savedProviders (state out) = savedProviders st
  /\ apiKey (state out) = apiKey st
  /\ closes out = false
  /\ (exists reason, notice out = notice_error "Validation failed" (Some reason))
  /\ (JsString.allWhiteSpace (apiKey st) = true -> requests out = []).
Proof.
  intros H out.
  assert (ApiValidation.success
            (ApiValidation.validateAPIKey fetch Date_now (selectedProvider st) (apiKey st)).1
          = false) as Hfail.
  { destruct (ApiValidation.success _) eqn:Hs; [|done].
    apply validateAPIKey_success_inv in Hs as [Hnb (request & body & Hok)].
    destruct H as [H|H]; [congruence | by destruct (H request body)]. }
  unfold out. rewrite handleValidateAndSave_failure by done. simpl.
  repeat split; eauto.
  intros Hb. by rewrite validateAPIKey_blank.
Qed.

(** X25.  When the key has something other than white space, the provider
    accepts it and the storage works, [handleValidateAndSave] stores the key
    under the selected provider, lists that provider as saved, empties the
    field and sets the dialog to close; what is stored for the other
    providers is as before. *)
Theorem vault_stores_validated_key st ls :
  JsString.allWhiteSpace (apiKey st) = false ->
  (forall request, exists body, fetch request = ApiValidation.fetch_response true body) ->
  SecureStorage.denied ls = false -> SecureStorage.full ls = false ->
  let out := handleValidateAndSave fetch Date_now st ls in
  SecureStorage.getKey (selectedProvider st) (storage out) = Some (apiKey st)
  /\ selectedProvider st ∈ savedProviders (state out)
  /\ apiKey (state out) = ""
  /\ closes out = true
  /\ (forall q, q <> selectedProvider st ->
       SecureStorage.getKey q (storage out) = SecureStorage.getKey q ls).
Proof.
  intros Hnb Hok Hd Hf out. unfold out.
  rewrite handleValidateAndSave_success by (by apply validateAPIKey_accepted). simpl.
  pose proof (getKey_saveKey (selectedProvider st) (apiKey st) ls Hd Hf) as Hget.
  split; [done|]. split.
  - apply elem_of_getSavedProviders. unfold SecureStorage.hasKey. by rewrite Hget.
  - repeat split. intros q Hq. by apply getKey_saveKey_ne.
Qed.

(** X26.  When the browser refuses access to the storage, a key that the
    provider accepts is still announced as connected and saved, the field
    is emptied and the dialog closes, but nothing is stored and the
    provider is not listed as saved. *)
Theorem vault_announces_success_without_storing st ls :
  JsString.allWhiteSpace (apiKey st) = false ->
  (forall request, exists body, fetch request = ApiValidation.fetch_response true body) ->
  SecureStorage.denied ls = true ->
  let out := handleValidateAndSave fetch Date_now st ls in
  notice out = notice_success (upperName (selectedProvider st) +:+ " connected")
                 (Some "API key saved securely")
  /\ closes out = true
  /\ apiKey (state out) = ""
  /\ storage out = ls
  /\ SecureStorage.hasKey (selectedProvider st) (storage out) = false
  /\ savedProviders (state out) = [].
Proof.
  intros Hnb Hok Hd out. unfold out.
  rewrite handleValidateAndSave_success by (by apply validateAPIKey_accepted). simpl.
  unfold SecureStorage.saveKey, SecureStorage.getSavedProviders, SecureStorage.hasKey,
    SecureStorage.getKey.
  rewrite Hd. simpl. by rewrite Hd.
Qed.

End VaultFacts.


Lemma vault_stores_nothing_when_validation_fails_witness :
  let out := ConnectionVault.handleValidateAndSave Demo.refusing 7 (Demo.vault "sk-bad")
               Demo.browser in
  ConnectionVault.storage out = Demo.browser
  /\ ConnectionVault.savedProviders (ConnectionVault.state out) = [gemini]
  /\ ConnectionVault.apiKey (ConnectionVault.state out) = "sk-bad"
  /\ ConnectionVault.closes out = false
  /\ (exists reason,
        ConnectionVault.notice out
        = ConnectionVault.notice_error "Validation failed" (Some reason))
  /\ (JsString.allWhiteSpace "sk-bad" = true -> ConnectionVault.requests out = []).
Proof.
  apply (vault_stores_nothing_when_validation_fails Demo.refusing 7 (Demo.vault "sk-bad")
           Demo.browser).
  right. intros request body. discriminate.
Defined.

Lemma vault_stores_validated_key_witness :
  let out := ConnectionVault.handleValidateAndSave Demo.accepting 7 (Demo.vault "sk-good")
               Demo.browser in
  SecureStorage.getKey openai (ConnectionVault.storage out) = Some "sk-good"
  /\ openai ∈ ConnectionVault.savedProviders (ConnectionVault.state out)
  /\ ConnectionVault.apiKey (ConnectionVault.state out) = ""
  /\ ConnectionVault.closes out = true
  /\ (forall q, q <> openai ->
       SecureStorage.getKey q (ConnectionVault.storage out)
       = SecureStorage.getKey q Demo.browser).
Proof.
  apply (vault_stores_validated_key Demo.accepting 7 (Demo.vault "sk-good") Demo.browser);
    try reflexivity.
  intros request. by eexists.
Defined.

Lemma vault_announces_success_without_storing_witness :
  let out := ConnectionVault.handleValidateAndSave Demo.accepting 7 (Demo.vault "sk-good")
               Demo.blocked in
  ConnectionVault.notice out
  = ConnectionVault.notice_success "OPENAI connected" (Some "API key saved securely")
  /\ ConnectionVault.closes out = true
  /\ ConnectionVault.apiKey (ConnectionVault.state out) = ""
  /\ ConnectionVault.storage out = Demo.blocked
  /\ SecureStorage.hasKey openai (ConnectionVault.storage out) = false
  /\ ConnectionVault.savedProviders (ConnectionVault.state out) = [].
Proof.
  apply (vault_announces_success_without_storing Demo.accepting 7 (Demo.vault "sk-good")
           Demo.blocked); try reflexivity.
  intros request. by eexists.
Defined.

(** * Properties of the provider selection *)

(** X28.  Toggling a provider in a selection without repetitions gives a
    selection without repetitions in which that provider is selected
    exactly if it was not before, and every other provider is selected
    exactly if it was. *)
Theorem handleProviderToggle_flips_one provider prev :
  NoDup prev ->
  NoDup (Home.handleProviderToggle provider prev)
  /\ (provider ∈ Home.handleProviderToggle provider prev <-> provider ∉ prev)
  /\ (forall q, q <> provider ->
       q ∈ Home.handleProviderToggle provider prev <-> q ∈ prev).
Proof.
  intros Hnd. unfold Home.handleProviderToggle. case_decide as Hin.
  - split; [by apply NoDup_filter|]. split.
    + rewrite list_elem_of_filter. tauto.
    + intros q Hq. rewrite list_elem_of_filter. tauto.
  - split; [|split].
    + apply NoDup_app. split; [done|]. split; [|apply NoDup_singleton].
      intros x Hx Hx'. apply list_elem_of_singleton in Hx'. by subst.
    + rewrite elem_of_app, list_elem_of_singleton. tauto.
    + intros q Hq. rewrite elem_of_app, list_elem_of_singleton. tauto.
Qed.

Lemma handleProviderToggle_flips_one_witness :
  NoDup (Home.handleProviderToggle gemini [openai; gemini])
  /\ (gemini ∈ Home.handleProviderToggle gemini [openai; gemini] <-> gemini ∉ [openai; gemini])
  /\ (forall q, q <> gemini ->
       q ∈ Home.handleProviderToggle gemini [openai; gemini] <-> q ∈ [openai; gemini]).
Proof.
  apply handleProviderToggle_flips_one.
  apply (bool_decide_unpack _). by compute.
Defined.

(** X29.  Selecting a provider that was not selected and toggling it again
    gives the selection back as it was, order included. *)
Theorem handleProviderToggle_twice provider prev :
  provider ∉ prev ->
  Home.handleProviderToggle provider (Home.handleProviderToggle provider prev) = prev.
Proof.
  intros Hin. unfold Home.handleProviderToggle at 2. rewrite decide_False by done.
  unfold Home.handleProviderToggle. rewrite decide_True.
  - apply filter_app_new; [|by intros H].
    apply Forall_forall. intros q Hq ->. done.
  - apply elem_of_app. right. by apply list_elem_of_singleton.
Qed.

Lemma handleProviderToggle_twice_witness :
  Home.handleProviderToggle qwen (Home.handleProviderToggle qwen [openai; gemini])
  = [openai; gemini].
Proof.
  apply handleProviderToggle_twice.
  intros H. repeat (apply elem_of_cons in H as [H|H]; [discriminate H|]).
  by apply elem_of_nil in H.
Defined.
